(** * Event-suggestion promotion workflow of the alumni portal

    A shallow embedding of the suggestion / vote / comment / promotion code
    bundled at the end of [src/pages/Directory.tsx]:

    - [components/EventSuggestions.tsx]: [fetchSuggestions], [handleVote],
      [handleComment];
    - [pages/suggest-event.tsx]: [handleSubmit];
    - [pages/api/promote-suggestions.ts]: [handler];
    - [supabase_migrations.sql]: the four tables and their constraints.

    The database is an explicit state that every request threads through.
    A request that the storage service or the network rejects is driven by a
    fault argument ([Some e] makes the request answer [e] and leaves the
    tables as they were). *)

From Stdlib Require Import List ZArith NArith QArith Bool String Ascii Lia.
From Stdlib Require Import Sorted Permutation DecimalString.
Import ListNotations.

Local Open Scope Z_scope.
Local Open Scope string_scope.
Local Open Scope list_scope.

(** ** The fragment of JavaScript the code relies on *)

Module Js.

(** Code units below 256 are carried by [ascii]; of those, the ones that
    [String.prototype.trim] and [Number] regard as white space
    (TAB, LF, VT, FF, CR, SP, NBSP). *)
Definition is_whitespace (c : ascii) : bool :=
  let n := N_of_ascii c in
  ((9 <=? n) && (n <=? 13) || (n =? 32) || (n =? 160))%N.

Fixpoint trim_start (l : list ascii) : list ascii :=
  match l with
  | c :: t => if is_whitespace c then trim_start t else l
  | [] => []
  end.

Definition trim_end (l : list ascii) : list ascii :=
  rev (trim_start (rev l)).

Definition trim_chars (l : list ascii) : list ascii :=
  trim_end (trim_start l).

(** [s.trim()] *)
Definition trim (s : string) : string :=
  string_of_list_ascii (trim_chars (list_ascii_of_string s)).

(** Truthiness of a string value: every string but the empty one. *)
Definition truthy (s : string) : bool :=
  match s with EmptyString => false | _ => true end.

(** Truthiness of [string | undefined]. *)
Definition truthy_opt (o : option string) : bool :=
  match o with Some s => truthy s | None => false end.

(** [o || dflt] for [o : string | undefined]. *)
Definition or_else (o : option string) (dflt : string) : string :=
  match o with
  | Some s => if truthy s then s else dflt
  | None => dflt
  end.

(** [o || null] for a string that ends in a nullable column. *)
Definition or_null (s : string) : option string :=
  if truthy s then Some s else None.

(** Numbers as far as the threshold needs them: a finite double is
    carried by the rational it stands for. *)
Inductive number : Type :=
| NaN
| Fin (q : Q)
| Inf (negative : bool).

Definition digit_value (base : N) (c : ascii) : option N :=
  let n := N_of_ascii c in
  let v :=
    if ((48 <=? n) && (n <=? 57))%N then Some (n - 48)%N
    else if ((97 <=? n) && (n <=? 102))%N then Some (n - 87)%N
    else if ((65 <=? n) && (n <=? 70))%N then Some (n - 55)%N
    else None in
  match v with
  | Some d => if (d <? base)%N then Some d else None
  | None => None
  end.

(** The longest prefix of digits of [base], and what follows it. *)
Fixpoint take_digits (base : N) (l : list ascii) : list N * list ascii :=
  match l with
  | c :: t =>
      match digit_value base c with
      | Some d => let '(ds, rest) := take_digits base t in (d :: ds, rest)
      | None => ([], l)
      end
  | [] => ([], [])
  end.

Definition value_of_digits (base : N) (ds : list N) : Z :=
  Z.of_N (fold_left (fun acc d => acc * base + d)%N ds 0%N).

Definition is_char (n : N) (c : ascii) : bool := (N_of_ascii c =? n)%N.

(** An optional sign: [true] when a minus sign was read. *)
Definition take_sign (l : list ascii) : bool * list ascii :=
  match l with
  | c :: t =>
      if is_char 45 c then (true, t)
      else if is_char 43 c then (false, t)
      else (false, l)
  | [] => (false, [])
  end.

(** ExponentPart, or nothing: the exponent read (0 when there is none). *)
Definition parse_exponent (l : list ascii) : option Z :=
  match l with
  | [] => Some 0
  | c :: t =>
      if is_char 101 c || is_char 69 c then
        let '(neg, t') := take_sign t in
        match take_digits 10 t' with
        | (d :: ds, []) =>
            let e := value_of_digits 10 (d :: ds) in
            Some (if neg then - e else e)
        | _ => None
        end
      else None
  end.

(** StrUnsignedDecimalLiteral. *)
Definition parse_unsigned_decimal (l : list ascii) : option number :=
  if list_eq_dec ascii_dec l (list_ascii_of_string "Infinity")
  then Some (Inf false)
  else
    let '(ip, r1) := take_digits 10 l in
    let '(dot, r2) :=
      match r1 with
      | c :: t => if is_char 46 c then (true, t) else (false, r1)
      | [] => (false, r1)
      end in
    let '(fp, r3) := if dot then take_digits 10 r2 else ([], r2) in
    match ip ++ fp with
    | [] => None
    | ds =>
        match parse_exponent r3 with
        | Some e =>
            let m := value_of_digits 10 ds in
            Some (Fin (inject_Z m * Qpower (inject_Z 10) (e - Z.of_nat (List.length fp))))
        | None => None
        end
    end.

Definition negate (x : number) : number :=
  match x with
  | NaN => NaN
  | Fin q => Fin (Qopp q)
  | Inf b => Inf (negb b)
  end.

(** NonDecimalIntegerLiteral: [0x], [0o] and [0b] prefixes, unsigned. *)
Definition parse_non_decimal (l : list ascii) : option number :=
  match l with
  | z :: p :: t =>
      let base :=
        if is_char 120 p || is_char 88 p then Some 16%N
        else if is_char 111 p || is_char 79 p then Some 8%N
        else if is_char 98 p || is_char 66 p then Some 2%N
        else None in
      match is_char 48 z, base with
      | true, Some b =>
          match take_digits b t with
          | (d :: ds, []) => Some (Fin (inject_Z (value_of_digits b (d :: ds))))
          | _ => None
          end
      | _, _ => None
      end
  | _ => None
  end.

(** The mathematical value of a string numeric literal: white space is
    trimmed, the empty string is 0, and what is not a numeric literal is
    [NaN]. *)
Definition literal_value (s : string) : number :=
  match trim_chars (list_ascii_of_string s) with
  | [] => Fin (inject_Z 0)
  | l =>
      match parse_non_decimal l with
      | Some x => x
      | None =>
          let '(neg, l') := take_sign l in
          match parse_unsigned_decimal l' with
          | Some x => if neg then negate x else x
          | None => NaN
          end
      end
  end.

(** [floor (log2 (n / d))] for positive [n] and [d]. *)
Definition floor_log2 (n d : Z) : Z :=
  let k := Z.log2 n - Z.log2 d in
  if (if 0 <=? k then d * 2 ^ k <=? n else d <=? n * 2 ^ (- k))%Z
  then k else k - 1.

(** The Number value for a positive rational: the nearest double, a tie
    going to the even significand, subnormal numbers included, and
    [Infinity] from [2 ^ 1024] on. *)
Definition nearest_double (q : Q) : number :=
  let n := Qnum q in
  let d := Zpos (Qden q) in
  let e := Z.max (floor_log2 n d - 52) (-1074) in
  let num := if (e <? 0)%Z then n * 2 ^ (- e) else n in
  let den := if (e <? 0)%Z then d else d * 2 ^ e in
  let m0 := num / den in
  let r := num mod den in
  let m :=
    if (2 * r <? den)%Z then m0
    else if (den <? 2 * r)%Z then m0 + 1
    else if Z.even m0 then m0 else m0 + 1 in
  if ((971 <? e) || (e =? 971) && (m =? 2 ^ 53))%Z then Inf false
  else if (e <? 0)%Z then Fin (Qred (Qmake m (Z.to_pos (2 ^ (- e)))))
  else Fin (inject_Z (m * 2 ^ e)).

(** The Number value for a mathematical value. *)
Definition to_double (x : number) : number :=
  match x with
  | Fin q =>
      match Qnum q with
      | Z0 => Fin (inject_Z 0)
      | Zpos _ => nearest_double q
      | Zneg _ => negate (nearest_double (Qopp q))
      end
  | _ => x
  end.

(** [Number(s)] on a string: the double nearest to the value of the
    literal. *)
Definition Number (s : string) : number :=
  to_double (literal_value s).

(** [n >= t] for an array length [n]. *)
Definition length_ge (n : nat) (t : number) : bool :=
  match t with
  | NaN => false
  | Fin q => Qle_bool q (inject_Z (Z.of_nat n))
  | Inf negative => negative
  end.

End Js.


(** ** The storage service: tables of [supabase_migrations.sql] *)

Module Storage.

(** A [uuid] value. Client and server only ever compare ids for equality. *)
Definition uuid : Type := N.
Bind Scope N_scope with uuid.

(** A [timestamptz] value, in microseconds. *)
Definition timestamptz : Type := Z.

Record event_suggestion : Type := {
  sg_id : uuid;
  sg_title : string;
  sg_description : option string;
  sg_location : option string;
  sg_proposed_date : option timestamptz;
  sg_created_by : option uuid;
  sg_created_at : timestamptz
}.

Record event_vote : Type := {
  vt_id : uuid;
  vt_suggestion_id : uuid;
  vt_voter_id : uuid;
  vt_created_at : timestamptz
}.

Record event_comment : Type := {
  cm_id : uuid;
  cm_suggestion_id : uuid;
  cm_commenter_id : uuid;
  cm_content : string;
  cm_created_at : timestamptz
}.

Record event : Type := {
  ev_id : uuid;
  ev_title : string;
  ev_description : option string;
  ev_location : option string;
  ev_event_date : option timestamptz;
  ev_organizer_id : option uuid;
  ev_created_at : timestamptz
}.

(** The four tables, each in storage order, and the source of
    [gen_random_uuid()], which hands out an id no row has had. *)
Record db : Type := {
  event_suggestions : list event_suggestion;
  event_votes : list event_vote;
  event_comments : list event_comment;
  events : list event;
  next_uuid : uuid
}.

Definition empty_db : db :=
  {| event_suggestions := []; event_votes := []; event_comments := [];
     events := []; next_uuid := 0%N |}.

(** The [error] member of a response. *)
Record storage_error : Type := { message : string }.

Definition result (A : Type) : Type := (storage_error + A)%type.

Definition foreign_key_violation : storage_error :=
  {| message := "insert or update on table violates foreign key constraint" |}.
Definition unique_violation : storage_error :=
  {| message := "duplicate key value violates unique constraint" |}.

(** A request that does not get through answers the fault and changes
    nothing. *)
Definition request {A : Type} (fault : option storage_error)
    (served : result A) : result A :=
  match fault with
  | Some e => inl e
  | None => served
  end.

Definition suggestion_exists (id : uuid) (d : db) : bool :=
  existsb (fun s => (sg_id s =? id)%N) (event_suggestions d).

Definition votes_eq (suggestion_id voter_id : uuid) (v : event_vote) : bool :=
  ((vt_suggestion_id v =? suggestion_id) && (vt_voter_id v =? voter_id))%N.

(** [from('event_votes').select('*').eq('suggestion_id', s)
      .eq('voter_id', u).limit(1)] *)
Definition select_votes (fault : option storage_error)
    (suggestion_id voter_id : uuid) (d : db) : result (list event_vote) :=
  request fault
    (inr (firstn 1 (filter (votes_eq suggestion_id voter_id) (event_votes d)))).

(** [from('event_votes').insert([{suggestion_id, voter_id}])]: the row
    must reference a suggestion, and [UNIQUE (suggestion_id, voter_id)]
    rejects a second row for the pair. *)
Definition insert_vote (fault : option storage_error) (now : timestamptz)
    (suggestion_id voter_id : uuid) (d : db) : result db :=
  request fault
    (if negb (suggestion_exists suggestion_id d) then inl foreign_key_violation
     else if existsb (votes_eq suggestion_id voter_id) (event_votes d)
     then inl unique_violation
     else inr {| event_suggestions := event_suggestions d;
                 event_votes := event_votes d ++
                   [{| vt_id := next_uuid d;
                       vt_suggestion_id := suggestion_id;
                       vt_voter_id := voter_id;
                       vt_created_at := now |}];
                 event_comments := event_comments d;
                 events := events d;
                 next_uuid := N.succ (next_uuid d) |}).

(** [from('event_votes').delete().eq('suggestion_id', s).eq('voter_id', u)] *)
Definition delete_vote (fault : option storage_error)
    (suggestion_id voter_id : uuid) (d : db) : result db :=
  request fault
    (inr {| event_suggestions := event_suggestions d;
            event_votes :=
              filter (fun v => negb (votes_eq suggestion_id voter_id v))
                     (event_votes d);
            event_comments := event_comments d;
            events := events d;
            next_uuid := next_uuid d |}).

(** [from('event_comments').insert([{suggestion_id, content, commenter_id}])] *)
Definition insert_comment (fault : option storage_error) (now : timestamptz)
    (suggestion_id : uuid) (content : string) (commenter_id : uuid) (d : db)
    : result db :=
  request fault
    (if negb (suggestion_exists suggestion_id d) then inl foreign_key_violation
     else inr {| event_suggestions := event_suggestions d;
                 event_votes := event_votes d;
                 event_comments := event_comments d ++
                   [{| cm_id := next_uuid d;
                       cm_suggestion_id := suggestion_id;
                       cm_commenter_id := commenter_id;
                       cm_content := content;
                       cm_created_at := now |}];
                 events := events d;
                 next_uuid := N.succ (next_uuid d) |}).

(** The columns a client sends for a new suggestion. *)
Record suggestion_payload : Type := {
  sp_title : string;
  sp_description : string;
  sp_location : option string;
  sp_proposed_date : option timestamptz;
  sp_created_by : option uuid
}.

(** [from('event_suggestions').insert([payload])] *)
Definition insert_suggestion (fault : option storage_error)
    (now : timestamptz) (p : suggestion_payload) (d : db) : result db :=
  request fault
    (inr {| event_suggestions := event_suggestions d ++
              [{| sg_id := next_uuid d;
                  sg_title := sp_title p;
                  sg_description := Some (sp_description p);
                  sg_location := sp_location p;
                  sg_proposed_date := sp_proposed_date p;
                  sg_created_by := sp_created_by p;
                  sg_created_at := now |}];
            event_votes := event_votes d;
            event_comments := event_comments d;
            events := events d;
            next_uuid := N.succ (next_uuid d) |}).

(** The columns the promotion job sends for a new event. *)
Record event_payload : Type := {
  title : string;
  description : option string;
  location : option string;
  event_date : option timestamptz;
  organizer_id : option uuid
}.

Definition event_row (id : uuid) (now : timestamptz) (p : event_payload)
    : event :=
  {| ev_id := id;
     ev_title := title p;
     ev_description := description p;
     ev_location := location p;
     ev_event_date := event_date p;
     ev_organizer_id := organizer_id p;
     ev_created_at := now |}.

(** [from('events').insert([insert])] *)
Definition insert_event (fault : option storage_error) (now : timestamptz)
    (p : event_payload) (d : db) : result db :=
  request fault
    (inr {| event_suggestions := event_suggestions d;
            event_votes := event_votes d;
            event_comments := event_comments d;
            events := events d ++ [event_row (next_uuid d) now p];
            next_uuid := N.succ (next_uuid d) |}).

(** [from('event_votes').delete().eq('suggestion_id', s)] *)
Definition delete_votes_of (fault : option storage_error)
    (suggestion_id : uuid) (d : db) : result db :=
  request fault
    (inr {| event_suggestions := event_suggestions d;
            event_votes :=
              filter (fun v => negb (vt_suggestion_id v =? suggestion_id)%N)
                     (event_votes d);
            event_comments := event_comments d;
            events := events d;
            next_uuid := next_uuid d |}).

(** [from('event_comments').delete().eq('suggestion_id', s)] *)
Definition delete_comments_of (fault : option storage_error)
    (suggestion_id : uuid) (d : db) : result db :=
  request fault
    (inr {| event_suggestions := event_suggestions d;
            event_votes := event_votes d;
            event_comments :=
              filter (fun c => negb (cm_suggestion_id c =? suggestion_id)%N)
                     (event_comments d);
            events := events d;
            next_uuid := next_uuid d |}).

(** [from('event_suggestions').delete().eq('id', s)]; the votes and the
    comments that reference the suggestion go with it
    ([ON DELETE CASCADE]). *)
Definition delete_suggestion (fault : option storage_error)
    (id : uuid) (d : db) : result db :=
  request fault
    (inr {| event_suggestions :=
              filter (fun s => negb (sg_id s =? id)%N) (event_suggestions d);
            event_votes :=
              filter (fun v => negb (vt_suggestion_id v =? id)%N)
                     (event_votes d);
            event_comments :=
              filter (fun c => negb (cm_suggestion_id c =? id)%N)
                     (event_comments d);
            events := events d;
            next_uuid := next_uuid d |}).

(** [ORDER BY]: a stable insertion sort for the order [le]. *)
Fixpoint insert_by {A : Type} (le : A -> A -> bool) (x : A) (l : list A)
    : list A :=
  match l with
  | [] => [x]
  | y :: t => if le x y then x :: l else y :: insert_by le x t
  end.

Definition sort_by {A : Type} (le : A -> A -> bool) (l : list A) : list A :=
  fold_right (insert_by le) [] l.

Definition created_asc (a b : event_suggestion) : bool :=
  (sg_created_at a <=? sg_created_at b)%Z.
Definition created_desc (a b : event_suggestion) : bool :=
  (sg_created_at b <=? sg_created_at a)%Z.

(** The embedded resource [event_votes(id)] of a suggestion. *)
Definition vote_ids_of (suggestion_id : uuid) (d : db) : list uuid :=
  map vt_id
      (filter (fun v => (vt_suggestion_id v =? suggestion_id)%N) (event_votes d)).

(** One element of the embedded resource
    [event_comments(id, content, created_at, commenter_id)]. *)
Record comment_item : Type := {
  id : uuid;
  content : string;
  created_at : timestamptz;
  commenter_id : uuid
}.

Definition comment_item_of (c : event_comment) : comment_item :=
  {| id := cm_id c; content := cm_content c;
     created_at := cm_created_at c; commenter_id := cm_commenter_id c |}.

(** No order is asked for the embedded comments: they come in storage
    order. *)
Definition comments_of (suggestion_id : uuid) (d : db) : list comment_item :=
  map comment_item_of
      (filter (fun c => (cm_suggestion_id c =? suggestion_id)%N)
              (event_comments d)).

(** A row of a [select] with embedded resources, as the client gets it
    (an embedded resource it did not ask for is [undefined]). *)
Record suggestion_data : Type := {
  row : event_suggestion;
  embedded_votes : option (list uuid);
  embedded_comments : option (list comment_item)
}.

Definition with_votes (d : db) (s : event_suggestion) : suggestion_data :=
  {| row := s;
     embedded_votes := Some (vote_ids_of (sg_id s) d);
     embedded_comments := None |}.

Definition with_votes_and_comments (d : db) (s : event_suggestion)
    : suggestion_data :=
  {| row := s;
     embedded_votes := Some (vote_ids_of (sg_id s) d);
     embedded_comments := Some (comments_of (sg_id s) d) |}.

(** [from('event_suggestions').select('*, event_votes(id)')
      .order('created_at', { ascending: true })] *)
Definition select_suggestions_with_votes (fault : option storage_error)
    (d : db) : result (list suggestion_data) :=
  request fault
    (inr (map (with_votes d) (sort_by created_asc (event_suggestions d)))).

(** [from('event_suggestions')
      .select(`*, event_votes(id), event_comments(id, content, created_at, commenter_id)`)
      .order('created_at', { ascending: false })] *)
Definition select_suggestions_feed (fault : option storage_error)
    (d : db) : result (list suggestion_data) :=
  request fault
    (inr (map (with_votes_and_comments d)
              (sort_by created_desc (event_suggestions d)))).

End Storage.

(** ** [components/EventSuggestions.tsx] and [pages/suggest-event.tsx] *)

Module Client.
Import Storage.

(** [interface Suggestion]: the fetched row spread as it is, with the
    three computed members. *)
Record Suggestion : Type := {
  fetched : suggestion_data;
  vote_count : nat;
  votes : list uuid;
  comments : list comment_item
}.

Inductive toast : Type :=
| ToastError (description : string)
| ToastLoginRequired (description : string)
| ToastRemovedVote
| ToastThanks (description : string).

(** [err.message || fallback] *)
Definition message_or (e : storage_error) (fallback : string) : string :=
  Js.or_else (Some (message e)) fallback.

(** [s.event_votes?.length ?? 0] *)
Definition votes_length (s : suggestion_data) : nat :=
  match embedded_votes s with
  | Some l => List.length l
  | None => 0%nat
  end.

Definition mapped (s : suggestion_data) : Suggestion :=
  {| fetched := s;
     vote_count := votes_length s;
     votes := match embedded_votes s with Some l => l | None => [] end;
     comments := match embedded_comments s with Some l => l | None => [] end |}.

(** [fetchSuggestions]: the new value of the [suggestions] state and the
    toast shown, if any. *)
Definition fetchSuggestions (fault : option storage_error) (d : db)
    (suggestions : list Suggestion) : list Suggestion * option toast :=
  match select_suggestions_feed fault d with
  | inl _ => (suggestions, Some (ToastError "Failed to load suggestions"))
  | inr data => (map mapped data, None)
  end.

(** What a call of [handleVote] meets: the signed-in user of
    [supabase.auth.getUser()], the value of [now()] in the transaction of
    its insert and the fault of each of its three requests. *)
Record vote_env : Type := {
  vote_user : option uuid;
  vote_now : timestamptz;
  select_fault : option storage_error;
  delete_fault : option storage_error;
  insert_fault : option storage_error
}.

(** The exits of [handleVote]. *)
Inductive vote_outcome : Type :=
| VoteLoginRequired
| VoteRemoved
| VoteInserted
| VoteError (description : string).

Definition handleVote (e : vote_env) (suggestionId : uuid) (d : db)
    : db * vote_outcome :=
  match vote_user e with
  | None => (d, VoteLoginRequired)
  | Some userId =>
      match select_votes (select_fault e) suggestionId userId d with
      | inl selErr => (d, VoteError (message_or selErr "Voting failed"))
      | inr existing =>
          if (0 <? List.length existing)%nat then
            match delete_vote (delete_fault e) suggestionId userId d with
            | inl delErr => (d, VoteError (message_or delErr "Voting failed"))
            | inr d' => (d', VoteRemoved)
            end
          else
            match insert_vote (insert_fault e) (vote_now e) suggestionId userId d with
            | inl error => (d, VoteError (message_or error "Voting failed"))
            | inr d' => (d', VoteInserted)
            end
      end
  end.

Definition vote_toast (o : vote_outcome) : option toast :=
  match o with
  | VoteLoginRequired => Some (ToastLoginRequired "Please sign in to vote")
  | VoteRemoved => Some ToastRemovedVote
  | VoteInserted => None
  | VoteError description => Some (ToastError description)
  end.

(** A call that cast or removed the vote. *)
Definition vote_succeeded (o : vote_outcome) : bool :=
  match o with
  | VoteRemoved | VoteInserted => true
  | VoteLoginRequired | VoteError _ => false
  end.

(** Calls of [handleVote] on one suggestion, one after the other. *)
Fixpoint handleVotes (es : list vote_env) (suggestionId : uuid) (d : db)
    : db * list vote_outcome :=
  match es with
  | [] => (d, [])
  | e :: rest =>
      let '(d1, o) := handleVote e suggestionId d in
      let '(d2, os) := handleVotes rest suggestionId d1 in
      (d2, o :: os)
  end.

(** What a call of [handleComment] meets. [comment_now] is the value of
    [now()] in the inserting transaction, which is the time the transaction
    started: the rows of two transactions that overlap may be stored in the
    opposite order of their [created_at]. *)
Record comment_env : Type := {
  comment_user : option uuid;
  comment_now : timestamptz;
  comment_fault : option storage_error
}.

(** The exits of [handleComment]; [CommentEmpty] is the bare [return] of
    [if (!content) return;]. *)
Inductive comment_outcome : Type :=
| CommentEmpty
| CommentLoginRequired
| CommentInserted
| CommentError (description : string).

(** The [commentText] state: the text typed under each suggestion. *)
Definition comment_texts : Type := uuid -> option string.

Definition set_text (t : comment_texts) (k : uuid) (v : string)
    : comment_texts :=
  fun k' => if (k' =? k)%N then Some v else t k'.

(** [commentText[suggestionId]?.trim()] *)
Definition trimmed (commentText : comment_texts) (suggestionId : uuid)
    : option string :=
  option_map Js.trim (commentText suggestionId).

Definition handleComment (e : comment_env) (commentText : comment_texts)
    (suggestionId : uuid) (d : db) : db * comment_texts * comment_outcome :=
  match trimmed commentText suggestionId with
  | None => (d, commentText, CommentEmpty)
  | Some content =>
      if negb (Js.truthy content) then (d, commentText, CommentEmpty)
      else
        match comment_user e with
        | None => (d, commentText, CommentLoginRequired)
        | Some userId =>
            match insert_comment (comment_fault e) (comment_now e)
                    suggestionId content userId d with
            | inl error =>
                (d, commentText, CommentError (message_or error "Comment failed"))
            | inr d' => (d', set_text commentText suggestionId "", CommentInserted)
            end
        end
  end.

Definition comment_toast (o : comment_outcome) : option toast :=
  match o with
  | CommentEmpty => None
  | CommentLoginRequired => Some (ToastLoginRequired "Please sign in to comment")
  | CommentInserted => None
  | CommentError description => Some (ToastError description)
  end.

(** The form of the suggest-event page; [form_date] is [None] while the
    date input is empty ([date || null]). *)
Record suggest_form : Type := {
  form_title : string;
  form_description : string;
  form_location : string;
  form_date : option timestamptz
}.

Record submit_env : Type := {
  submit_user : option uuid;
  submit_now : timestamptz;
  submit_fault : option storage_error
}.

(** [handleSubmit] of [SuggestEventPage]. *)
Definition handleSubmit (e : submit_env) (f : suggest_form) (d : db)
    : db * toast :=
  let payload :=
    {| sp_title := form_title f;
       sp_description := form_description f;
       sp_location := Js.or_null (form_location f);
       sp_proposed_date := form_date f;
       sp_created_by := submit_user e |} in
  match insert_suggestion (submit_fault e) (submit_now e) payload d with
  | inl error => (d, ToastError (message_or error "Failed to submit suggestion"))
  | inr d' => (d', ToastThanks "Suggestion submitted.")
  end.

End Client.

(** ** [pages/api/promote-suggestions.ts] *)

Module Job.
Import Storage.

(** [process.env] as the endpoint reads it. *)
Record env : Type := {
  SUPABASE_SERVICE_ROLE_KEY : option string;
  EVENT_PROMOTE_THRESHOLD : option string
}.

(** What a run meets at the storage service: the fault of the fetch and,
    for the candidate of each id ([id] is the primary key of
    [event_suggestions]), the value of [now()] at its event insert and the
    fault of each of its four requests. *)
Record world : Type := {
  fetch_fault : option storage_error;
  insert_now : uuid -> timestamptz;
  insert_fault : uuid -> option storage_error;
  delete_votes_fault : uuid -> option storage_error;
  delete_comments_fault : uuid -> option storage_error;
  delete_suggestion_fault : uuid -> option storage_error
}.

(** [err.message || err] *)
Inductive error_value : Type :=
| ErrorMessage (text : string)
| ErrorObject (err : storage_error).

Inductive json : Type :=
| Promoted (promoted : list uuid)
| Error (error : error_value).

Record response : Type := {
  status : Z;
  body : json
}.

(** [s.event_votes?.length ?? 0] *)
Definition votes_length (s : suggestion_data) : nat :=
  match embedded_votes s with
  | Some l => List.length l
  | None => 0%nat
  end.

(** The record inserted into [events] for a suggestion. *)
Definition insert_record (s : event_suggestion) : event_payload :=
  {| title := sg_title s;
     description := sg_description s;
     location := sg_location s;
     event_date := sg_proposed_date s;
     organizer_id := sg_created_by s |}.

(** The result of an awaited request whose [error] is not looked at. *)
Definition unchecked (r : result db) (d : db) : db :=
  match r with
  | inl _ => d
  | inr d' => d'
  end.

(** The cleanup after a successful event insert. *)
Definition cleanup (w : world) (sid : uuid) (d : db) : db :=
  let d1 := unchecked (delete_votes_of (delete_votes_fault w sid) sid d) d in
  let d2 := unchecked (delete_comments_of (delete_comments_fault w sid) sid d1) d1 in
  unchecked (delete_suggestion (delete_suggestion_fault w sid) sid d2) d2.

(** [for (const s of toPromote) { ... }] *)
Fixpoint promote_loop (w : world) (toPromote : list suggestion_data)
    (d : db) (promoted : list uuid) : db * list uuid :=
  match toPromote with
  | [] => (d, promoted)
  | s :: rest =>
      let sid := sg_id (row s) in
      match insert_event (insert_fault w sid) (insert_now w sid)
              (insert_record (row s)) d with
      | inl insErr => promote_loop w rest d promoted
      | inr d1 => promote_loop w rest (cleanup w sid d1) (promoted ++ [sid])
      end
  end.

Definition VOTE_THRESHOLD (e : env) : Js.number :=
  Js.Number (Js.or_else (EVENT_PROMOTE_THRESHOLD e) "5").

Definition toPromote (e : env) (suggestions : list suggestion_data)
    : list suggestion_data :=
  filter (fun s => Js.length_ge (votes_length s) (VOTE_THRESHOLD e)) suggestions.

Definition error_payload (err : storage_error) : error_value :=
  if Js.truthy (message err) then ErrorMessage (message err) else ErrorObject err.

(** The responses the handler sends. The client is taken as created:
    [createClient], called before the [try], throws when the URL of the
    project is missing, and the handler then sends no response of its
    own; that exit is outside [handler]. *)
Definition handler (e : env) (w : world) (d : db) : db * response :=
  if negb (Js.truthy_opt (SUPABASE_SERVICE_ROLE_KEY e)) then
    (d, {| status := 500; body := Error (ErrorMessage "Missing service role key") |})
  else
    match select_suggestions_with_votes (fetch_fault w) d with
    | inl error => (d, {| status := 500; body := Error (error_payload error) |})
    | inr suggestions =>
        let '(d', promoted) := promote_loop w (toPromote e suggestions) d [] in
        (d', {| status := 200; body := Promoted promoted |})
    end.

(** The ids a response reports as promoted. *)
Definition reported (r : response) : list uuid :=
  match body r with
  | Promoted promoted => promoted
  | Error _ => []
  end.

End Job.

(** ** The system as a whole: every way the code changes the tables *)

Module System.
Import Storage.

(** The write requests the code issues. A handler is a sequence of them,
    and handlers of several callers may interleave request by request. *)
Inductive write : Type :=
| InsertVote (now : timestamptz) (suggestion_id voter_id : uuid)
| DeleteVote (suggestion_id voter_id : uuid)
| InsertComment (now : timestamptz) (suggestion_id : uuid) (content : string)
    (commenter_id : uuid)
| InsertSuggestion (now : timestamptz) (p : suggestion_payload)
| InsertEvent (now : timestamptz) (p : event_payload)
| DeleteVotesOf (suggestion_id : uuid)
| DeleteCommentsOf (suggestion_id : uuid)
| DeleteSuggestion (id : uuid).

Definition serve (fault : option storage_error) (r : write) (d : db)
    : result db :=
  match r with
  | InsertVote now s v => insert_vote fault now s v d
  | DeleteVote s v => delete_vote fault s v d
  | InsertComment now s c u => insert_comment fault now s c u d
  | InsertSuggestion now p => insert_suggestion fault now p d
  | InsertEvent now p => insert_event fault now p d
  | DeleteVotesOf s => delete_votes_of fault s d
  | DeleteCommentsOf s => delete_comments_of fault s d
  | DeleteSuggestion i => delete_suggestion fault i d
  end.

Inductive operation : Type :=
| CastVote (e : Client.vote_env) (suggestionId : uuid)
| AddComment (e : Client.comment_env) (commentText : Client.comment_texts)
    (suggestionId : uuid)
| CreateSuggestion (e : Client.submit_env) (f : Client.suggest_form)
| RunPromotion (e : Job.env) (w : Job.world)
| Request (fault : option storage_error) (r : write).

Definition step (o : operation) (d : db) : db :=
  match o with
  | CastVote e s => fst (Client.handleVote e s d)
  | AddComment e t s => fst (fst (Client.handleComment e t s d))
  | CreateSuggestion e f => fst (Client.handleSubmit e f d)
  | RunPromotion e w => fst (Job.handler e w d)
  | Request fault r => Job.unchecked (serve fault r d) d
  end.

Definition run (ops : list operation) (d : db) : db :=
  fold_left (fun d' o => step o d') ops d.

End System.

(** ** The vocabulary of the properties *)

Module Spec.
Import Storage.

(** The Vote rows of a (suggestion, voter) pair. *)
Definition votes_of_pair (suggestion_id voter_id : uuid) (d : db)
    : list event_vote :=
  filter (votes_eq suggestion_id voter_id) (event_votes d).

Definition count_votes (suggestion_id voter_id : uuid) (d : db) : nat :=
  List.length (votes_of_pair suggestion_id voter_id d).

(** At most one Vote row for every (suggestion, voter) pair. *)
Definition votes_unique (d : db) : Prop :=
  forall s v, (count_votes s v d <= 1)%nat.

(** The votes of [d'] are votes of [d], none of them new. *)
Definition votes_shrink (d d' : db) : Prop :=
  forall p, (List.length (filter p (event_votes d')) <=
             List.length (filter p (event_votes d)))%nat.

(** The rows of the suggestion [id] are the same in [d] and [d']. *)
Definition same_rows (id : uuid) (d d' : db) : Prop :=
  filter (fun s => (sg_id s =? id)%N) (event_suggestions d') =
    filter (fun s => (sg_id s =? id)%N) (event_suggestions d) /\
  filter (fun v => (vt_suggestion_id v =? id)%N) (event_votes d') =
    filter (fun v => (vt_suggestion_id v =? id)%N) (event_votes d) /\
  filter (fun c => (cm_suggestion_id c =? id)%N) (event_comments d') =
    filter (fun c => (cm_suggestion_id c =? id)%N) (event_comments d).

(** The id of a fetched suggestion. *)
Definition sid (s : suggestion_data) : uuid := sg_id (row s).

(** The event insert of the candidate [s] is served. *)
Definition inserted (w : Job.world) (s : suggestion_data) : bool :=
  match Job.insert_fault w (sid s) with
  | None => true
  | Some _ => false
  end.

(** The tables once the event of the candidate [s] is in. *)
Definition with_event (w : Job.world) (s : suggestion_data) (d : db) : db :=
  {| event_suggestions := event_suggestions d;
     event_votes := event_votes d;
     event_comments := event_comments d;
     events := events d ++
       [event_row (next_uuid d) (Job.insert_now w (sid s))
                  (Job.insert_record (row s))];
     next_uuid := N.succ (next_uuid d) |}.

(** The candidates of a run whose fetch is served. *)
Definition candidates (e : Job.env) (d : db) : list suggestion_data :=
  Job.toPromote e (map (with_votes d) (sort_by created_asc (event_suggestions d))).

(** The rows that belong to a suggestion, table by table. *)
Definition suggestions_with (id : uuid) (d : db) : list event_suggestion :=
  filter (fun s => (sg_id s =? id)%N) (event_suggestions d).
Definition votes_with (id : uuid) (d : db) : list event_vote :=
  filter (fun v => (vt_suggestion_id v =? id)%N) (event_votes d).
Definition comments_with (id : uuid) (d : db) : list event_comment :=
  filter (fun c => (cm_suggestion_id c =? id)%N) (event_comments d).

(** The vote count of a suggestion. *)
Definition voteCount (id : uuid) (d : db) : nat :=
  List.length (votes_with id d).

(** The threshold is configured to the integer [T]. *)
Definition threshold_is (e : Job.env) (T : Z) : Prop :=
  match Job.VOTE_THRESHOLD e with
  | Js.Fin q => Qeq q (inject_Z T)
  | _ => False
  end.

(** The elevated credential is there. *)
Definition has_credential (e : Job.env) : Prop :=
  Js.truthy_opt (Job.SUPABASE_SERVICE_ROLE_KEY e) = true.

(** No request of the run fails. *)
Definition fully_succeeds (w : Job.world) : Prop :=
  Job.fetch_fault w = None /\
  forall id,
    Job.insert_fault w id = None /\
    Job.delete_votes_fault w id = None /\
    Job.delete_comments_fault w id = None /\
    Job.delete_suggestion_fault w id = None.

(** The event [e] carries the fields of the suggestion [s]. *)
Definition copies (s : event_suggestion) (e : event) : Prop :=
  ev_title e = sg_title s /\
  ev_description e = sg_description s /\
  ev_location e = sg_location s /\
  ev_event_date e = sg_proposed_date s /\
  ev_organizer_id e = sg_created_by s.

(** Each creation time is at most the next one. *)
Fixpoint ascending (l : list timestamptz) : bool :=
  match l with
  | a :: (b :: _) as t => (a <=? b)%Z && ascending t
  | _ => true
  end.

(** The feed after a fetch that was served. *)
Definition feed (d : db) : list Client.Suggestion :=
  fst (Client.fetchSuggestions None d []).

(** The creation times of the comments shown under a suggestion, in the
    order they are shown. *)
Definition shown_times (S : Client.Suggestion) : list timestamptz :=
  map created_at (Client.comments S).

(** The creation times of the stored comments, in storage order. *)
Definition stored_times (d : db) : list timestamptz :=
  map cm_created_at (event_comments d).

(** The text under a suggestion is blank after trimming (or was never
    typed). *)
Definition blank (commentText : Client.comment_texts) (suggestionId : uuid)
    : bool :=
  match Client.trimmed commentText suggestionId with
  | Some content => negb (Js.truthy content)
  | None => true
  end.

End Spec.

(** ** A small portal to run the code on *)

Module Scenario.
Import Storage.

Definition with_key : Job.env :=
  {| Job.SUPABASE_SERVICE_ROLE_KEY := Some "service-role-key";
     Job.EVENT_PROMOTE_THRESHOLD := None |}.

Definition without_key : Job.env :=
  {| Job.SUPABASE_SERVICE_ROLE_KEY := None;
     Job.EVENT_PROMOTE_THRESHOLD := Some "5" |}.

Definition unreachable : storage_error := {| message := "fetch failed" |}.

(** Every request is served. *)
Definition calm : Job.world :=
  {| Job.fetch_fault := None;
     Job.insert_now := fun _ => 900;
     Job.insert_fault := fun _ => None;
     Job.delete_votes_fault := fun _ => None;
     Job.delete_comments_fault := fun _ => None;
     Job.delete_suggestion_fault := fun _ => None |}.

(** The event insert for the suggestion [id] fails. *)
Definition insert_fails_for (id : uuid) : Job.world :=
  {| Job.fetch_fault := None;
     Job.insert_now := fun _ => 900;
     Job.insert_fault := fun i => if (i =? id)%N then Some unreachable else None;
     Job.delete_votes_fault := fun _ => None;
     Job.delete_comments_fault := fun _ => None;
     Job.delete_suggestion_fault := fun _ => None |}.

(** Every cleanup delete fails. *)
Definition cleanup_fails : Job.world :=
  {| Job.fetch_fault := None;
     Job.insert_now := fun _ => 900;
     Job.insert_fault := fun _ => None;
     Job.delete_votes_fault := fun _ => Some unreachable;
     Job.delete_comments_fault := fun _ => Some unreachable;
     Job.delete_suggestion_fault := fun _ => Some unreachable |}.

Definition voter (u : uuid) (now : timestamptz) : Client.vote_env :=
  {| Client.vote_user := Some u; Client.vote_now := now;
     Client.select_fault := None; Client.delete_fault := None;
     Client.insert_fault := None |}.

Definition author (u : option uuid) (now : timestamptz) : Client.submit_env :=
  {| Client.submit_user := u; Client.submit_now := now;
     Client.submit_fault := None |}.

Definition commenter (u : option uuid) (now : timestamptz)
    : Client.comment_env :=
  {| Client.comment_user := u; Client.comment_now := now;
     Client.comment_fault := None |}.

Definition typed (text : string) : Client.comment_texts := fun _ => Some text.

Definition reunion : Client.suggest_form :=
  {| Client.form_title := "Reunion";
     Client.form_description := "Annual reunion dinner";
     Client.form_location := "Islamabad";
     Client.form_date := Some 5000 |}.

Definition career_fair : Client.suggest_form :=
  {| Client.form_title := "Career fair";
     Client.form_description := "Meet the recruiters";
     Client.form_location := "";
     Client.form_date := None |}.

(** Two suggestions (ids 0 and 1) and no vote yet. *)
Definition suggested : db :=
  System.run
    [System.CreateSuggestion (author (Some 1%N) 10) reunion;
     System.CreateSuggestion (author None 20) career_fair]
    empty_db.

(** Five votes and a comment on the reunion, four votes on the fair. *)
Definition portal : db :=
  System.run
    [System.CastVote (voter 101 31) 0; System.CastVote (voter 102 32) 0;
     System.CastVote (voter 103 33) 0; System.CastVote (voter 104 34) 0;
     System.CastVote (voter 105 35) 0;
     System.CastVote (voter 101 41) 1; System.CastVote (voter 102 42) 1;
     System.CastVote (voter 103 43) 1; System.CastVote (voter 104 44) 1;
     System.AddComment (commenter (Some 101%N) 50) (typed " Count me in ") 0]
    suggested.

(** Two comments on the reunion whose inserting transactions overlapped:
    the one that started later (at 70) was stored first. *)
Definition overlapping : db :=
  System.run
    [System.AddComment (commenter (Some 101%N) 70) (typed "second thought") 0;
     System.AddComment (commenter (Some 102%N) 60) (typed "first thought") 0]
    suggested.

Definition reunion_row : event_suggestion :=
  {| sg_id := 0; sg_title := "Reunion";
     sg_description := Some "Annual reunion dinner";
     sg_location := Some "Islamabad"; sg_proposed_date := Some 5000;
     sg_created_by := Some 1%N; sg_created_at := 10 |}.

Definition career_fair_row : event_suggestion :=
  {| sg_id := 1; sg_title := "Career fair";
     sg_description := Some "Meet the recruiters";
     sg_location := None; sg_proposed_date := None;
     sg_created_by := None; sg_created_at := 20 |}.

End Scenario.

(** ** More of JavaScript: letter case, search in a string, number to text *)

Module JsText.

(** [toLowerCase] on one code unit below 256: the letters A-Z and the
    capital letters of Latin-1 (all of 192..222 but the multiplication
    sign) move up by 32. On texts of such code units the conversion goes
    character by character; the conversions that depend on the
    neighbours of a character (the final sigma) or change the length
    concern characters from 256 on, which these strings do not hold. *)
Definition lower_char (c : ascii) : ascii :=
  let n := N_of_ascii c in
  if ((65 <=? n) && (n <=? 90) ||
      (192 <=? n) && (n <=? 222) && negb (n =? 215))%N
  then ascii_of_N (n + 32)
  else c.

(** [s.toLowerCase()] for a text of code units below 256. *)
Fixpoint toLowerCase (s : string) : string :=
  match s with
  | EmptyString => EmptyString
  | String c t => String (lower_char c) (toLowerCase t)
  end.

(** [s.startsWith(sub)] *)
Fixpoint starts_with (sub s : string) : bool :=
  match sub, s with
  | EmptyString, _ => true
  | String a sub', String b s' => (a =? b)%char && starts_with sub' s'
  | String _ _, EmptyString => false
  end.

(** [s.includes(sub)] *)
Fixpoint includes (s sub : string) : bool :=
  starts_with sub s ||
  match s with
  | EmptyString => false
  | String _ t => includes t sub
  end.

Definition is_digit (c : ascii) : bool :=
  let n := N_of_ascii c in ((48 <=? n) && (n <=? 57))%N.

(** [s.replace(/[^\d]/g, '')] *)
Fixpoint digits_only (s : string) : string :=
  match s with
  | EmptyString => EmptyString
  | String c t => if is_digit c then String c (digits_only t) else digits_only t
  end.

(** [n.toString()] for an integer. *)
Definition toString (n : Z) : string :=
  DecimalString.NilZero.string_of_int (Z.to_int n).

(** An optional string inside a template literal. *)
Definition template (o : option string) : string :=
  match o with
  | Some s => s
  | None => "undefined"
  end.

(** [[...new Set(l)]]: the values of [l] in order of first occurrence. *)
Fixpoint to_set {A : Type} (eqb : A -> A -> bool) (l : list A) : list A :=
  match l with
  | [] => []
  | x :: t => x :: filter (fun y => negb (eqb y x)) (to_set eqb t)
  end.

(** [l.filter(Boolean)] on strings that may be missing. *)
Fixpoint truthy_strings (l : list (option string)) : list string :=
  match l with
  | [] => []
  | Some s :: t => if Js.truthy s then s :: truthy_strings t else truthy_strings t
  | None :: t => truthy_strings t
  end.

(** [l.filter(Boolean)] on integers that may be missing. *)
Fixpoint truthy_numbers (l : list (option Z)) : list Z :=
  match l with
  | [] => []
  | Some n :: t => if (n =? 0)%Z then truthy_numbers t else n :: truthy_numbers t
  | None :: t => truthy_numbers t
  end.

End JsText.

(** ** The [Directory] page *)

Module Directory.

(** [interface AlumniProfile] *)
Record AlumniProfile : Type := {
  id : Storage.uuid;
  full_name : string;
  graduation_year : option Z;
  industry : option string;
  company : option string;
  job_title : option string;
  location : option string;
  bio : option string;
  verified : bool;
  role : string;
  contact_email : option string;
  contact_phone : option string;
  contact_whatsapp : option string;
  linkedin_url : option string;
  show_email : bool;
  show_phone : bool;
  show_whatsapp : bool;
  show_linkedin : bool;
  pref_anonymous : bool;
  primary_contact_method : string
}.

(** The state of the component ([filteredProfiles] is recomputed by
    [filterProfiles] whenever one of the others changes). *)
Record state : Type := {
  profiles : list AlumniProfile;
  loading : bool;
  searchTerm : string;
  selectedIndustry : string;
  selectedYear : string;
  selectedLocation : string;
  industries : list string;
  years : list Z;
  locations : list string
}.

Definition initial : state :=
  {| profiles := []; loading := true; searchTerm := ""; selectedIndustry := "";
     selectedYear := ""; selectedLocation := ""; industries := []; years := [];
     locations := [] |}.

(** [fetchProfiles], given the answer of
    [from('profiles').select('*').eq('pref_anonymous', false).order('full_name')]
    ([data] may be [null]). *)
Definition fetchProfiles
    (response : Storage.result (option (list AlumniProfile))) (st : state)
    : state :=
  match response with
  | inl error =>
      {| profiles := profiles st; loading := false;
         searchTerm := searchTerm st; selectedIndustry := selectedIndustry st;
         selectedYear := selectedYear st; selectedLocation := selectedLocation st;
         industries := industries st; years := years st;
         locations := locations st |}
  | inr data =>
      let rows := match data with Some l => l | None => [] end in
      let uniqueIndustries :=
        JsText.to_set String.eqb (JsText.truthy_strings (map industry rows)) in
      let uniqueYears :=
        JsText.to_set Z.eqb (JsText.truthy_numbers (map graduation_year rows)) in
      let uniqueLocations :=
        JsText.to_set String.eqb (JsText.truthy_strings (map location rows)) in
      {| profiles := rows; loading := false;
         searchTerm := searchTerm st; selectedIndustry := selectedIndustry st;
         selectedYear := selectedYear st; selectedLocation := selectedLocation st;
         industries := uniqueIndustries;
         years := Storage.sort_by (fun a b => (b <=? a)%Z) uniqueYears;
         locations := uniqueLocations |}
  end.

(** [field?.toLowerCase().includes(term.toLowerCase())] *)
Definition field_includes (field : option string) (term : string) : bool :=
  match field with
  | Some f => JsText.includes (JsText.toLowerCase f) (JsText.toLowerCase term)
  | None => false
  end.

Definition matches_search (term : string) (profile : AlumniProfile) : bool :=
  JsText.includes (JsText.toLowerCase (full_name profile))
                  (JsText.toLowerCase term) ||
  field_includes (company profile) term ||
  field_includes (job_title profile) term ||
  field_includes (industry profile) term.

(** [field === selected] *)
Definition field_is (field : option string) (selected : string) : bool :=
  match field with
  | Some f => String.eqb f selected
  | None => false
  end.

(** [profile.graduation_year?.toString() === selectedYear] *)
Definition year_is (year : option Z) (selected : string) : bool :=
  match year with
  | Some y => String.eqb (JsText.toString y) selected
  | None => false
  end.

(** [filterProfiles]: the new value of [filteredProfiles]. *)
Definition filterProfiles (st : state) : list AlumniProfile :=
  let filtered := profiles st in
  let filtered :=
    if Js.truthy (searchTerm st)
    then filter (matches_search (searchTerm st)) filtered else filtered in
  let filtered :=
    if Js.truthy (selectedIndustry st)
    then filter (fun p => field_is (industry p) (selectedIndustry st)) filtered
    else filtered in
  let filtered :=
    if Js.truthy (selectedYear st)
    then filter (fun p => year_is (graduation_year p) (selectedYear st)) filtered
    else filtered in
  if Js.truthy (selectedLocation st)
  then filter (fun p => field_is (location p) (selectedLocation st)) filtered
  else filtered.

Definition clearFilters (st : state) : state :=
  {| profiles := profiles st; loading := loading st;
     searchTerm := ""; selectedIndustry := ""; selectedYear := "";
     selectedLocation := "";
     industries := industries st; years := years st;
     locations := locations st |}.

(** The choice of a value in one of the three selects. *)
Definition setSelectedIndustry (v : string) (st : state) : state :=
  {| profiles := profiles st; loading := loading st;
     searchTerm := searchTerm st; selectedIndustry := v;
     selectedYear := selectedYear st; selectedLocation := selectedLocation st;
     industries := industries st; years := years st;
     locations := locations st |}.

Definition setSelectedYear (v : string) (st : state) : state :=
  {| profiles := profiles st; loading := loading st;
     searchTerm := searchTerm st; selectedIndustry := selectedIndustry st;
     selectedYear := v; selectedLocation := selectedLocation st;
     industries := industries st; years := years st;
     locations := locations st |}.

Definition setSelectedLocation (v : string) (st : state) : state :=
  {| profiles := profiles st; loading := loading st;
     searchTerm := searchTerm st; selectedIndustry := selectedIndustry st;
     selectedYear := selectedYear st; selectedLocation := v;
     industries := industries st; years := years st;
     locations := locations st |}.

Definition setSearchTerm (v : string) (st : state) : state :=
  {| profiles := profiles st; loading := loading st;
     searchTerm := v; selectedIndustry := selectedIndustry st;
     selectedYear := selectedYear st; selectedLocation := selectedLocation st;
     industries := industries st; years := years st;
     locations := locations st |}.

(** The [type] of a [ContactButton]. *)
Inductive contact_type : Type := email | phone | whatsapp | linkedin.

Definition type_name (type : contact_type) : string :=
  match type with
  | email => "email"
  | phone => "phone"
  | whatsapp => "whatsapp"
  | linkedin => "linkedin"
  end.

Record contact_info : Type := {
  value : option string;
  href : option string
}.

Definition getContactInfo (profile : AlumniProfile) (type : contact_type)
    : contact_info :=
  match type with
  | email =>
      {| value := contact_email profile;
         href := Some ("mailto:" ++ JsText.template (contact_email profile))%string |}
  | phone =>
      {| value := contact_phone profile;
         href := Some ("tel:" ++ JsText.template (contact_phone profile))%string |}
  | whatsapp =>
      {| value := contact_whatsapp profile;
         href := Some ("https://wa.me/" ++
                       JsText.template
                         (option_map JsText.digits_only
                            (contact_whatsapp profile)))%string |}
  | linkedin =>
      {| value := linkedin_url profile; href := linkedin_url profile |}
  end.

Definition shouldShow (profile : AlumniProfile) (type : contact_type) : bool :=
  match type with
  | email => show_email profile && Js.truthy_opt (contact_email profile)
  | phone => show_phone profile && Js.truthy_opt (contact_phone profile)
  | whatsapp => show_whatsapp profile && Js.truthy_opt (contact_whatsapp profile)
  | linkedin => show_linkedin profile && Js.truthy_opt (linkedin_url profile)
  end.

(** What a rendered [ContactButton] is: its variant, the address its click
    opens, and whether it carries the label "Primary". *)
Record button : Type := {
  variant : string;
  opens : option string;
  primary : bool
}.

(** [ContactButton]: [None] when it renders nothing. *)
Definition ContactButton (profile : AlumniProfile) (type : contact_type)
    : option button :=
  if negb (shouldShow profile type) then None
  else
    let contactInfo := getContactInfo profile type in
    let isPrimary := String.eqb (primary_contact_method profile) (type_name type) in
    Some {| variant := if isPrimary then "default" else "outline";
            opens := href contactInfo;
            primary := isPrimary |}.

(** The four buttons of a profile card, in the order of the page. *)
Definition contact_buttons (profile : AlumniProfile) : list button :=
  flat_map (fun type => match ContactButton profile type with
                        | Some b => [b]
                        | None => []
                        end)
           [email; linkedin; whatsapp; phone].

End Directory.

(** ** The events page ([pages/events.tsx]) *)

Module EventsPage.
Import Storage.

(** [ORDER BY event_date ASC]: the rows without a date come last. *)
Definition date_le (a b : event) : bool :=
  match ev_event_date a, ev_event_date b with
  | Some x, Some y => (x <=? y)%Z
  | Some _, None => true
  | None, Some _ => false
  | None, None => true
  end.

(** [from('events').select('*').order('event_date', { ascending: true })] *)
Definition select_events (fault : option storage_error) (d : db)
    : result (list event) :=
  request fault (inr (sort_by date_le (events d))).

(** [fetchEvents]: the new value of the [events] state and the toast
    shown, if any. *)
Definition fetchEvents (fault : option storage_error) (d : db)
    (current : list event) : list event * option Client.toast :=
  match select_events fault d with
  | inl _ => (current, Some (Client.ToastError "Failed to load events"))
  | inr data => (data, None)
  end.

(** What one call of [isUpcoming] reads: the time value of
    [new Date(dateString)] for the text of a stored date, and the time
    value of its own [new Date()]. *)
Record clock : Type := {
  getTime : timestamptz -> Z;
  now : Z
}.

Definition isUpcoming (c : clock) (dateString : option timestamptz) : bool :=
  match dateString with
  | None => false
  | Some t => (now c <? getTime c t)%Z
  end.

(** [formatDate]: ['TBA'] or the date in the long format of the locale. *)
Inductive date_text : Type :=
| TBA
| Formatted (t : timestamptz).

Definition formatDate (dateString : option timestamptz) : date_text :=
  match dateString with
  | None => TBA
  | Some t => Formatted t
  end.

(** The card of an event calls [isUpcoming] five times, each call with
    its own [new Date()]: for the variant and the text of the badge, for
    the variant of the button, for [disabled] and for the label of the
    button. *)
Record readings : Type := {
  parse : timestamptz -> Z;
  at_badge_variant : Z;
  at_badge : Z;
  at_button_variant : Z;
  at_disabled : Z;
  at_action : Z
}.

Definition call (r : readings) (at_call : readings -> Z)
    (dateString : option timestamptz) : bool :=
  isUpcoming {| getTime := parse r; now := at_call r |} dateString.

(** What the card of an event shows. *)
Record card : Type := {
  card_title : string;
  badge_variant : string;
  badge : string;
  date_line : date_text;
  place : option string;
  button_variant : string;
  disabled : bool;
  action : string
}.

Definition render_card (r : readings) (e : event) : card :=
  {| card_title := ev_title e;
     badge_variant :=
       if call r at_badge_variant (ev_event_date e)
       then "default" else "secondary";
     badge := if call r at_badge (ev_event_date e) then "Upcoming" else "Past";
     date_line := formatDate (ev_event_date e);
     place := match ev_location e with
              | Some l => if Js.truthy l then Some l else None
              | None => None
              end;
     button_variant :=
       if call r at_button_variant (ev_event_date e)
       then "default" else "outline";
     disabled := negb (call r at_disabled (ev_event_date e));
     action :=
       if call r at_action (ev_event_date e) then "Register" else "View Details" |}.

End EventsPage.

(** ** More vocabulary for properties *)

Module Vocabulary.
Import Storage.

(** Every vote and every comment references a stored suggestion. *)
Definition references_hold (d : db) : Prop :=
  (forall v, In v (event_votes d) ->
             suggestion_exists (vt_suggestion_id v) d = true) /\
  (forall c, In c (event_comments d) ->
             suggestion_exists (cm_suggestion_id c) d = true).

(** The ids of the stored suggestions are below the next id handed out. *)
Definition ids_fresh (d : db) : Prop :=
  forall s, In s (event_suggestions d) -> (sg_id s < next_uuid d)%N.

Definition consistent (d : db) : Prop :=
  references_hold d /\ ids_fresh d.

(** The operations a signed-in or anonymous visitor can start from the
    pages. *)
Definition by_visitor (o : System.operation) : bool :=
  match o with
  | System.CastVote _ _ | System.AddComment _ _ _ | System.CreateSuggestion _ _ =>
      true
  | System.RunPromotion _ _ | System.Request _ _ => false
  end.

(** [l] starts with [p]. *)
Definition prefix_of {A : Type} (p l : list A) : Prop :=
  exists rest, l = p ++ rest.

(** Every cleanup delete of the run fails. *)
Definition cleanup_fails (w : Job.world) : Prop :=
  forall i,
    Job.delete_votes_fault w i <> None /\
    Job.delete_comments_fault w i <> None /\
    Job.delete_suggestion_fault w i <> None.

(** The suggestion [i] has no row left in any table. *)
Definition retired (i : uuid) (d : db) : Prop :=
  Spec.suggestions_with i d = [] /\
  Spec.votes_with i d = [] /\
  Spec.comments_with i d = [].

(** Newest first. *)
Fixpoint descending (l : list timestamptz) : bool :=
  match l with
  | a :: (b :: _) as t => (b <=? a)%Z && descending t
  | _ => true
  end.

(** Strictly decreasing. *)
Fixpoint strictly_descending (l : list Z) : bool :=
  match l with
  | a :: (b :: _) as t => (b <? a)%Z && strictly_descending t
  | _ => true
  end.

(** Dated events in ascending order of date, then the events without
    date. *)
Fixpoint dates_ascending (l : list (option timestamptz)) : bool :=
  match l with
  | a :: (b :: _) as t =>
      match a, b with
      | Some x, Some y => (x <=? y)%Z
      | Some _, None => true
      | None, Some _ => false
      | None, None => true
      end && dates_ascending t
  | _ => true
  end.

(** The four criteria of the directory, those that are set. *)
Definition selected (st : Directory.state) (p : Directory.AlumniProfile) : bool :=
  (if Js.truthy (Directory.searchTerm st)
   then Directory.matches_search (Directory.searchTerm st) p else true) &&
  (if Js.truthy (Directory.selectedIndustry st)
   then Directory.field_is (Directory.industry p) (Directory.selectedIndustry st)
   else true) &&
  (if Js.truthy (Directory.selectedYear st)
   then Directory.year_is (Directory.graduation_year p) (Directory.selectedYear st)
   else true) &&
  (if Js.truthy (Directory.selectedLocation st)
   then Directory.field_is (Directory.location p) (Directory.selectedLocation st)
   else true).

(** All characters of [s] are decimal digits. *)
Fixpoint all_digits (s : string) : bool :=
  match s with
  | EmptyString => true
  | String c t => JsText.is_digit c && all_digits t
  end.

(** The directory right after a fetch that was served with [rows], no
    criterion set. *)
Definition fetched_directory (rows : list Directory.AlumniProfile)
    : Directory.state :=
  Directory.fetchProfiles (inr (Some rows)) Directory.initial.

Definition is_whitespace_free_at_ends (s : string) : Prop :=
  match list_ascii_of_string s with
  | [] => True
  | c :: t => Js.is_whitespace c = false /\
              Js.is_whitespace (last t c) = false
  end.

End Vocabulary.

(** ** More of the small portal *)

Module Scenario2.
Import Storage.

Definition ayesha : Directory.AlumniProfile :=
  {| Directory.id := 201; Directory.full_name := "Ayesha Khan";
     Directory.graduation_year := Some 2015;
     Directory.industry := Some "Energy"; Directory.company := Some "PAEC";
     Directory.job_title := Some "Design Engineer";
     Directory.location := Some "Islamabad"; Directory.bio := None;
     Directory.verified := true; Directory.role := "verified_alumni";
     Directory.contact_email := Some "ayesha@example.org";
     Directory.contact_phone := Some "+92 300 1234567";
     Directory.contact_whatsapp := Some "+92 (300) 123-4567";
     Directory.linkedin_url := None;
     Directory.show_email := true; Directory.show_phone := false;
     Directory.show_whatsapp := true; Directory.show_linkedin := true;
     Directory.pref_anonymous := false;
     Directory.primary_contact_method := "whatsapp" |}.

Definition bilal : Directory.AlumniProfile :=
  {| Directory.id := 202; Directory.full_name := "Bilal Ahmed";
     Directory.graduation_year := Some 2019;
     Directory.industry := Some "Automotive"; Directory.company := None;
     Directory.job_title := None;
     Directory.location := Some "Lahore"; Directory.bio := None;
     Directory.verified := false; Directory.role := "alumni";
     Directory.contact_email := None;
     Directory.contact_phone := None;
     Directory.contact_whatsapp := None;
     Directory.linkedin_url := Some "https://linkedin.com/in/bilal";
     Directory.show_email := false; Directory.show_phone := false;
     Directory.show_whatsapp := false; Directory.show_linkedin := true;
     Directory.pref_anonymous := false;
     Directory.primary_contact_method := "email" |}.

Definition chand : Directory.AlumniProfile :=
  {| Directory.id := 203; Directory.full_name := "Chand Bibi";
     Directory.graduation_year := Some 0;
     Directory.industry := Some "Energy"; Directory.company := Some "Wapda";
     Directory.job_title := None;
     Directory.location := Some ""; Directory.bio := None;
     Directory.verified := false; Directory.role := "alumni";
     Directory.contact_email := None;
     Directory.contact_phone := None;
     Directory.contact_whatsapp := None;
     Directory.linkedin_url := None;
     Directory.show_email := false; Directory.show_phone := false;
     Directory.show_whatsapp := false; Directory.show_linkedin := false;
     Directory.pref_anonymous := false;
     Directory.primary_contact_method := "email" |}.

(** The WhatsApp button of the first profile. *)
Definition whatsapp_button : Directory.button :=
  {| Directory.variant := "default";
     Directory.opens := Some "https://wa.me/923001234567";
     Directory.primary := true |}.

(** The directory once the three profiles are fetched. *)
Definition directory : Directory.state :=
  Directory.fetchProfiles (inr (Some [ayesha; bilal; chand])) Directory.initial.

(** An event of the past, one to come (for the browser below) and one
    without date. *)
Definition picnic : event :=
  {| ev_id := 31; ev_title := "Picnic"; ev_description := None;
     ev_location := Some "Margalla Hills"; ev_event_date := Some 3000000;
     ev_organizer_id := None; ev_created_at := 100 |}.

Definition seminar : event :=
  {| ev_id := 32; ev_title := "Seminar"; ev_description := None;
     ev_location := None; ev_event_date := Some 5000000;
     ev_organizer_id := None; ev_created_at := 200 |}.

Definition meetup : event :=
  {| ev_id := 33; ev_title := "Meetup"; ev_description := None;
     ev_location := None; ev_event_date := None;
     ev_organizer_id := None; ev_created_at := 300 |}.

(** A browser whose time values are milliseconds, rendering a card from
    time 4000 on. *)
Definition browser : EventsPage.readings :=
  {| EventsPage.parse := fun t => t / 1000;
     EventsPage.at_badge_variant := 4000; EventsPage.at_badge := 4000;
     EventsPage.at_button_variant := 4001; EventsPage.at_disabled := 4001;
     EventsPage.at_action := 4002 |}.

(** Insert and cleanup are served but for the delete of the suggestion. *)
Definition suggestion_delete_fails : Job.world :=
  {| Job.fetch_fault := None;
     Job.insert_now := fun _ => 900;
     Job.insert_fault := fun _ => None;
     Job.delete_votes_fault := fun _ => None;
     Job.delete_comments_fault := fun _ => None;
     Job.delete_suggestion_fault := fun _ => Some Scenario.unreachable |}.

(** The deletes of votes and comments fail, the one of the suggestion is
    served. *)
Definition only_suggestion_delete : Job.world :=
  {| Job.fetch_fault := None;
     Job.insert_now := fun _ => 900;
     Job.insert_fault := fun _ => None;
     Job.delete_votes_fault := fun _ => Some Scenario.unreachable;
     Job.delete_comments_fault := fun _ => Some Scenario.unreachable;
     Job.delete_suggestion_fault := fun _ => None |}.


(** Two comments on the reunion, stored in the order they were written
    (at 50 and at 60). *)
Definition chatty : db :=
  System.run
    [System.AddComment (Scenario.commenter (Some 101%N) 50)
       (Scenario.typed "Count me in") 0;
     System.AddComment (Scenario.commenter (Some 102%N) 60)
       (Scenario.typed "Me too") 0]
    Scenario.suggested.

(** A suggestion without location and date, voted up by five. *)
Definition undated : db :=
  System.run
    [System.CastVote (Scenario.voter 101 41) 1;
     System.CastVote (Scenario.voter 102 42) 1;
     System.CastVote (Scenario.voter 103 43) 1;
     System.CastVote (Scenario.voter 104 44) 1;
     System.CastVote (Scenario.voter 105 45) 1]
    Scenario.suggested.

(** The reunion as the feed of the portal shows it. *)
Definition reunion_shown : Client.Suggestion :=
  Client.mapped (with_votes_and_comments Scenario.portal Scenario.reunion_row).

Definition threshold (text : string) : Job.env :=
  {| Job.SUPABASE_SERVICE_ROLE_KEY := Some "service-role-key";
     Job.EVENT_PROMOTE_THRESHOLD := Some text |}.

End Scenario2.

(** ** Facts about lists and tables *)

Section ListFacts.
Context {A : Type}.
Implicit Types (p q : A -> bool) (l : list A).

Lemma filter_snoc_length p l x :
  List.length (filter p (l ++ [x])) =
  (List.length (filter p l) + if p x then 1 else 0)%nat.
Proof.
  rewrite filter_app, length_app. simpl.
  destruct (p x); reflexivity.
Qed.

Lemma existsb_false_filter p l :
  existsb p l = false -> filter p l = [].
Proof.
  induction l as [|a l IH]; simpl; intros H; [reflexivity|].
  apply orb_false_iff in H. destruct H as [Ha Hl].
  rewrite Ha. auto.
Qed.

Lemma filter_filter_length p q l :
  (List.length (filter p (filter q l)) <= List.length (filter p l))%nat.
Proof.
  induction l as [|a l IH]; simpl; [lia|].
  destruct (q a); simpl; destruct (p a); simpl; lia.
Qed.

Lemma filter_nil_iff p l :
  filter p l = [] <-> forall x, In x l -> p x = false.
Proof.
  induction l as [|a l IH]; simpl.
  - split; [intros _ x [] | reflexivity].
  - destruct (p a) eqn:Ha; split.
    + discriminate.
    + intros H. specialize (H a (or_introl eq_refl)). congruence.
    + intros H x [<-|Hx]; [assumption | now apply IH].
    + intros H. apply IH. intros x Hx. apply H. now right.
Qed.

(** Two filters whose predicates exclude each other commute away. *)
Lemma filter_other p q l :
  (forall x, p x = true -> q x = true) ->
  filter p (filter q l) = filter p l.
Proof.
  intros H. induction l as [|a l IH]; simpl; [reflexivity|].
  destruct (q a) eqn:Hq; simpl.
  - destruct (p a); now rewrite IH.
  - destruct (p a) eqn:Hp; [|assumption].
    apply H in Hp. congruence.
Qed.

Lemma filter_none p q l :
  (forall x, p x = true -> q x = false) ->
  filter p (filter q l) = [].
Proof.
  intros H. apply filter_nil_iff. intros x Hx.
  apply filter_In in Hx. destruct Hx as [_ Hq].
  destruct (p x) eqn:Hp; [|reflexivity].
  apply H in Hp. congruence.
Qed.

Lemma In_insert_by (le : A -> A -> bool) x y l :
  In y (Storage.insert_by le x l) <-> y = x \/ In y l.
Proof.
  induction l as [|a l IH]; simpl.
  - intuition congruence.
  - destruct (le x a); simpl; rewrite ?IH; intuition congruence.
Qed.

Lemma In_sort_by (le : A -> A -> bool) y l :
  In y (Storage.sort_by le l) <-> In y l.
Proof.
  induction l as [|a l IH]; simpl; [reflexivity|].
  rewrite In_insert_by, IH. intuition congruence.
Qed.

End ListFacts.

(** ** The vote ledger *)

Section VoteLedger.
Import Storage Spec.

Lemma votes_shrink_refl d : votes_shrink d d.
Proof. intros p. lia. Qed.

Lemma votes_shrink_trans d1 d2 d3 :
  votes_shrink d1 d2 -> votes_shrink d2 d3 -> votes_shrink d1 d3.
Proof. intros H12 H23 p. specialize (H12 p). specialize (H23 p). lia. Qed.

Lemma votes_shrink_same d d' :
  event_votes d' = event_votes d -> votes_shrink d d'.
Proof. intros E p. rewrite E. lia. Qed.

Lemma votes_shrink_filter d d' q :
  event_votes d' = filter q (event_votes d) -> votes_shrink d d'.
Proof. intros E p. rewrite E. apply filter_filter_length. Qed.

Lemma votes_shrink_unique d d' :
  votes_shrink d d' -> votes_unique d -> votes_unique d'.
Proof.
  intros Hs Hu s v. specialize (Hs (votes_eq s v)). specialize (Hu s v).
  unfold count_votes, votes_of_pair in *. lia.
Qed.

Lemma votes_eq_iff s v x :
  votes_eq s v x = true <-> vt_suggestion_id x = s /\ vt_voter_id x = v.
Proof.
  unfold votes_eq. rewrite andb_true_iff, !N.eqb_eq. reflexivity.
Qed.

(** What a served vote insert does to the count of every pair. *)
Lemma insert_vote_count fault now s v d d' :
  insert_vote fault now s v d = inr d' ->
  count_votes s v d = 0%nat /\
  forall s' v',
    count_votes s' v' d' =
    (count_votes s' v' d + if ((s =? s') && (v =? v'))%N then 1 else 0)%nat.
Proof.
  unfold insert_vote, request. intros H.
  destruct fault; [discriminate|].
  destruct (negb (suggestion_exists s d)); [discriminate|].
  destruct (existsb (votes_eq s v) (event_votes d)) eqn:Hex; [discriminate|].
  injection H as <-. split.
  - unfold count_votes, votes_of_pair.
    now rewrite (existsb_false_filter _ _ Hex).
  - intros s' v'. unfold count_votes, votes_of_pair. simpl.
    rewrite filter_snoc_length. reflexivity.
Qed.

Lemma insert_vote_unique fault now s v d d' :
  insert_vote fault now s v d = inr d' -> votes_unique d -> votes_unique d'.
Proof.
  intros H Hu s' v'. apply insert_vote_count in H. destruct H as [H0 Hc].
  rewrite Hc. destruct ((s =? s') && (v =? v'))%N eqn:E.
  - apply andb_true_iff in E. destruct E as [Es Ev].
    apply N.eqb_eq in Es, Ev. subst. lia.
  - specialize (Hu s' v'). lia.
Qed.

Lemma delete_vote_count fault s v d d' :
  delete_vote fault s v d = inr d' ->
  count_votes s v d' = 0%nat /\ votes_shrink d d'.
Proof.
  unfold delete_vote, request. intros H.
  destruct fault; [discriminate|]. injection H as <-. split.
  - unfold count_votes, votes_of_pair. simpl.
    rewrite filter_none; [reflexivity|].
    intros x Hx. now rewrite Hx.
  - eapply votes_shrink_filter. reflexivity.
Qed.

Lemma handleVote_unique e s d :
  votes_unique d -> votes_unique (fst (Client.handleVote e s d)).
Proof.
  intros Hu. unfold Client.handleVote.
  destruct (Client.vote_user e) as [u|]; [|assumption].
  destruct (select_votes _ s u d) as [err|existing]; [assumption|].
  destruct (0 <? List.length existing)%nat.
  - destruct (delete_vote _ s u d) as [err|d'] eqn:Hd; [assumption|].
    apply delete_vote_count in Hd. destruct Hd as [_ Hs].
    now apply (votes_shrink_unique d).
  - destruct (insert_vote _ _ s u d) as [err|d'] eqn:Hi; [assumption|].
    now apply (insert_vote_unique _ _ _ _ _ _ Hi).
Qed.

End VoteLedger.

(** ** The promotion job *)

Section PromotionJob.
Import Storage Spec.

Variable w : Job.world.

Lemma promote_loop_cons s rest d acc :
  Job.promote_loop w (s :: rest) d acc =
  if inserted w s
  then Job.promote_loop w rest (Job.cleanup w (sid s) (with_event w s d))
         (acc ++ [sid s])
  else Job.promote_loop w rest d acc.
Proof.
  simpl. unfold inserted, sid, insert_event, request.
  destruct (Job.insert_fault w (sg_id (row s))); reflexivity.
Qed.

(** The three cleanup deletes, whatever their faults, leave [events]
    alone and only take rows of the suggestion out. *)
Lemma cleanup_events id d :
  events (Job.cleanup w id d) = events d.
Proof.
  unfold Job.cleanup, Job.unchecked, delete_votes_of, delete_comments_of,
    delete_suggestion, request.
  destruct (Job.delete_votes_fault w id), (Job.delete_comments_fault w id),
    (Job.delete_suggestion_fault w id); reflexivity.
Qed.

Lemma cleanup_votes_shrink id d :
  votes_shrink d (Job.cleanup w id d).
Proof.
  unfold Job.cleanup, Job.unchecked, delete_votes_of, delete_comments_of,
    delete_suggestion, request.
  destruct (Job.delete_votes_fault w id), (Job.delete_comments_fault w id),
    (Job.delete_suggestion_fault w id); simpl;
    intros p; simpl;
    repeat (etransitivity; [apply filter_filter_length|]); lia.
Qed.

Lemma neq_other (i j k : uuid) :
  i <> j -> (k =? i)%N = true -> negb (k =? j)%N = true.
Proof.
  intros Hne Hk. apply N.eqb_eq in Hk. subst k.
  apply negb_true_iff, N.eqb_neq. assumption.
Qed.

Lemma cleanup_other id i d :
  i <> id -> same_rows i d (Job.cleanup w id d).
Proof.
  intros Hne.
  unfold same_rows, Job.cleanup, Job.unchecked, delete_votes_of,
    delete_comments_of, delete_suggestion, request.
  destruct (Job.delete_votes_fault w id), (Job.delete_comments_fault w id),
    (Job.delete_suggestion_fault w id); simpl;
    repeat split;
    rewrite ?filter_other; try reflexivity;
    intros x; apply neq_other; assumption.
Qed.

Lemma cleanup_deleted id d :
  Job.delete_suggestion_fault w id = None ->
  filter (fun s => (sg_id s =? id)%N)
         (event_suggestions (Job.cleanup w id d)) = [].
Proof.
  intros H.
  unfold Job.cleanup, Job.unchecked, delete_votes_of, delete_comments_of,
    delete_suggestion, request. rewrite H.
  destruct (Job.delete_votes_fault w id), (Job.delete_comments_fault w id);
    simpl; apply filter_none; intros x Hx; now rewrite Hx.
Qed.

Lemma same_rows_refl i d : same_rows i d d.
Proof. repeat split. Qed.

Lemma same_rows_trans i d1 d2 d3 :
  same_rows i d1 d2 -> same_rows i d2 d3 -> same_rows i d1 d3.
Proof.
  intros (a & b & c) (a' & b' & c'). repeat split; congruence.
Qed.

(** The reported ids are those of the candidates whose event insert was
    served, in order. *)
Lemma promote_loop_reported cands d acc :
  snd (Job.promote_loop w cands d acc) =
  acc ++ map sid (filter (inserted w) cands).
Proof.
  revert d acc. induction cands as [|s rest IH]; intros d acc.
  - simpl. now rewrite app_nil_r.
  - rewrite promote_loop_cons. simpl. destruct (inserted w s).
    + rewrite IH. simpl. now rewrite <- app_assoc.
    + apply IH.
Qed.

(** A suggestion that is not reported keeps its rows. *)
Lemma promote_loop_untouched cands d acc i :
  ~ In i (map sid (filter (inserted w) cands)) ->
  same_rows i d (fst (Job.promote_loop w cands d acc)).
Proof.
  revert d acc. induction cands as [|s rest IH]; intros d acc Hi.
  - apply same_rows_refl.
  - rewrite promote_loop_cons. simpl in Hi. destruct (inserted w s).
    + simpl in Hi.
      apply (same_rows_trans i d (Job.cleanup w (sid s) (with_event w s d))).
      * apply (same_rows_trans i d (with_event w s d)).
        -- repeat split.
        -- apply cleanup_other. intros ->. apply Hi. now left.
      * apply IH. intros H. apply Hi. now right.
    + now apply IH.
Qed.

(** A reported suggestion whose own delete was served is gone. *)
Lemma promote_loop_deleted cands d acc i :
  In i (map sid (filter (inserted w) cands)) ->
  Job.delete_suggestion_fault w i = None ->
  filter (fun s => (sg_id s =? i)%N)
         (event_suggestions (fst (Job.promote_loop w cands d acc))) = [].
Proof.
  revert d acc. induction cands as [|s rest IH]; intros d acc Hi Hdel.
  - destruct Hi.
  - rewrite promote_loop_cons. simpl in Hi. destruct (inserted w s).
    + destruct (in_dec N.eq_dec i (map sid (filter (inserted w) rest)))
        as [Hin|Hout].
      * now apply IH.
      * destruct Hi as [Hi|Hi]; [|contradiction]. subst i.
        destruct (promote_loop_untouched rest
                    (Job.cleanup w (sid s) (with_event w s d))
                    (acc ++ [sid s]) (sid s) Hout) as (E & _ & _).
        rewrite E. now apply cleanup_deleted.
    + now apply IH.
Qed.

(** The events appended by the loop, one per reported suggestion. *)
Lemma promote_loop_events cands d acc :
  exists evs,
    events (fst (Job.promote_loop w cands d acc)) = events d ++ evs /\
    Forall2 copies (map row (filter (inserted w) cands)) evs.
Proof.
  revert d acc. induction cands as [|s rest IH]; intros d acc.
  - exists []. simpl. rewrite app_nil_r. split; [reflexivity | constructor].
  - rewrite promote_loop_cons. simpl. destruct (inserted w s).
    + destruct (IH (Job.cleanup w (sid s) (with_event w s d)) (acc ++ [sid s]))
        as (evs & E & F).
      rewrite cleanup_events in E. simpl in E.
      eexists (_ :: evs). split.
      * rewrite E, <- app_assoc. reflexivity.
      * simpl. constructor; [|assumption]. repeat split.
    + apply IH.
Qed.

Lemma promote_loop_votes_shrink cands d acc :
  votes_shrink d (fst (Job.promote_loop w cands d acc)).
Proof.
  revert d acc. induction cands as [|s rest IH]; intros d acc.
  - apply votes_shrink_refl.
  - rewrite promote_loop_cons. destruct (inserted w s); [|apply IH].
    eapply votes_shrink_trans; [|apply IH].
    apply (votes_shrink_trans d (with_event w s d)).
    + now apply votes_shrink_same.
    + apply cleanup_votes_shrink.
Qed.

End PromotionJob.

Section PromotionRun.
Import Storage Spec.

Lemma handler_served e w d :
  has_credential e -> Job.fetch_fault w = None ->
  Job.handler e w d =
  (fst (Job.promote_loop w (candidates e d) d []),
   {| Job.status := 200;
      Job.body := Job.Promoted (map sid (filter (inserted w) (candidates e d))) |}).
Proof.
  unfold has_credential. intros Hk Hf.
  unfold Job.handler, select_suggestions_with_votes, request.
  rewrite Hk, Hf. simpl. fold (candidates e d).
  pose proof (promote_loop_reported w (candidates e d) d []) as R.
  destruct (Job.promote_loop w (candidates e d) d []) as [d' promoted].
  simpl in *. now rewrite R.
Qed.

(** A run that does not reach the loop changes nothing and reports
    nothing. *)
Lemma handler_not_served e w d :
  Js.truthy_opt (Job.SUPABASE_SERVICE_ROLE_KEY e) = false \/
  Job.fetch_fault w <> None ->
  fst (Job.handler e w d) = d /\
  Job.status (snd (Job.handler e w d)) = 500 /\
  Job.reported (snd (Job.handler e w d)) = [].
Proof.
  unfold Job.handler, select_suggestions_with_votes, request.
  intros [Hk|Hf].
  - rewrite Hk. simpl. auto.
  - destruct (negb _); [simpl; auto|].
    destruct (Job.fetch_fault w); [simpl; auto | congruence].
Qed.

Lemma votes_length_with_votes d s :
  Job.votes_length (with_votes d s) = voteCount (sg_id s) d.
Proof.
  unfold Job.votes_length, with_votes, vote_ids_of, voteCount, votes_with.
  simpl. apply length_map.
Qed.

(** The candidates are the stored suggestions whose vote count reaches
    the threshold. *)
Lemma In_candidates e d sd :
  In sd (candidates e d) <->
  exists s, In s (event_suggestions d) /\ sd = with_votes d s /\
            Js.length_ge (voteCount (sg_id s) d) (Job.VOTE_THRESHOLD e) = true.
Proof.
  unfold candidates, Job.toPromote. rewrite filter_In, in_map_iff. split.
  - intros [(s & <- & Hs) Hq]. exists s.
    rewrite In_sort_by in Hs. rewrite votes_length_with_votes in Hq. auto.
  - intros (s & Hs & -> & Hq). split.
    + exists s. rewrite In_sort_by. auto.
    + now rewrite votes_length_with_votes.
Qed.

Lemma In_reported_ids w cands i :
  In i (map sid (filter (inserted w) cands)) <->
  exists sd, In sd cands /\ sid sd = i /\ Job.insert_fault w i = None.
Proof.
  rewrite in_map_iff. split.
  - intros (sd & <- & H). apply filter_In in H. destruct H as [Hin Hok].
    exists sd. repeat split; [assumption|].
    unfold inserted in Hok. now destruct (Job.insert_fault w (sid sd)).
  - intros (sd & Hin & <- & Hok). exists sd. split; [reflexivity|].
    apply filter_In. split; [assumption|]. unfold inserted. now rewrite Hok.
Qed.

(** Who is reported by a run that reaches the loop. *)
Lemma reported_iff e w d i :
  has_credential e -> Job.fetch_fault w = None ->
  (In i (Job.reported (snd (Job.handler e w d))) <->
   (exists s, In s (event_suggestions d) /\ sg_id s = i) /\
   Js.length_ge (voteCount i d) (Job.VOTE_THRESHOLD e) = true /\
   Job.insert_fault w i = None).
Proof.
  intros Hk Hf. rewrite (handler_served e w d Hk Hf).
  cbn [snd Job.reported Job.body].
  rewrite In_reported_ids. split.
  - intros (sd & Hin & <- & Hok). apply In_candidates in Hin.
    destruct Hin as (s & Hs & -> & Hq). unfold sid. simpl.
    split; [exists s; auto | auto].
  - intros ((s & Hs & <-) & Hq & Hok). exists (with_votes d s).
    split; [|split; [reflexivity | assumption]].
    apply In_candidates. exists s. auto.
Qed.

Lemma length_ge_threshold e T n :
  threshold_is e T ->
  (Js.length_ge n (Job.VOTE_THRESHOLD e) = true <-> T <= Z.of_nat n).
Proof.
  unfold threshold_is, Js.length_ge.
  destruct (Job.VOTE_THRESHOLD e) as [|q|b]; try contradiction.
  intros Hq. rewrite Qle_bool_iff, Hq, <- Zle_Qle. reflexivity.
Qed.

End PromotionRun.


(** ** The model at work *)

Section ModelChecks.
Import Storage Spec.

Example Number_of_threshold_texts :
  Js.Number "5" = Js.Fin (5 # 1) /\
  Js.Number " 12 " = Js.Fin (12 # 1) /\
  Js.Number "-3" = Js.Fin (-3 # 1) /\
  Js.Number "2.5" = Js.Fin (5 # 2) /\
  Js.Number "5.0000000000000000001" = Js.Fin (5 # 1) /\
  Js.Number "9007199254740993" = Js.Fin (9007199254740992 # 1) /\
  Js.Number "1e-400" = Js.Fin (0 # 1) /\
  Js.Number "1e400" = Js.Inf false /\
  Js.Number "0x1f" = Js.Fin (31 # 1) /\
  Js.Number "five" = Js.NaN /\
  Js.Number "-Infinity" = Js.Inf true.
Proof. vm_compute. repeat split. Qed.

Example default_threshold :
  Job.VOTE_THRESHOLD Scenario.with_key = Js.Fin (5 # 1) /\
  Job.VOTE_THRESHOLD
    {| Job.SUPABASE_SERVICE_ROLE_KEY := Some "k";
       Job.EVENT_PROMOTE_THRESHOLD := Some "" |} = Js.Fin (5 # 1) /\
  Job.VOTE_THRESHOLD
    {| Job.SUPABASE_SERVICE_ROLE_KEY := Some "k";
       Job.EVENT_PROMOTE_THRESHOLD := Some "0" |} = Js.Fin (0 # 1).
Proof. vm_compute. repeat split. Qed.

Example trim_of_comment_texts :
  Js.trim " Count me in " = "Count me in" /\ Js.trim "   " = "".
Proof. split; reflexivity. Qed.

(** Five votes at threshold 5: one event with the fields of the reunion,
    and the reunion, its votes and its comment are gone. *)
Example promotion_of_the_reunion :
  let '(d', r) := Job.handler Scenario.with_key Scenario.calm Scenario.portal in
  r = {| Job.status := 200; Job.body := Job.Promoted [0%N] |} /\
  events d' =
    [{| ev_id := 12; ev_title := "Reunion";
        ev_description := Some "Annual reunion dinner";
        ev_location := Some "Islamabad"; ev_event_date := Some 5000;
        ev_organizer_id := Some 1%N; ev_created_at := 900 |}] /\
  event_suggestions d' = [Scenario.career_fair_row] /\
  votes_with 0 d' = [] /\ comments_with 0 d' = [] /\
  voteCount 1 d' = 4%nat.
Proof. vm_compute. repeat split. Qed.

(** A second insert for a pair that has a vote is refused by the storage
    service itself. *)
Example double_click_refused :
  insert_vote None 36 0 101 Scenario.portal = inl unique_violation.
Proof. reflexivity. Qed.

(** A vote on a suggestion that is gone is refused as well. *)
Example vote_on_missing_suggestion :
  Client.handleVote (Scenario.voter 101 36) 7 Scenario.portal =
  (Scenario.portal,
   Client.VoteError "insert or update on table violates foreign key constraint").
Proof. reflexivity. Qed.

End ModelChecks.

(** ** Properties of the vote ledger *)

Section VoteLedgerProperties.
Import Storage Spec.

Lemma handleComment_votes e t s d :
  event_votes (fst (fst (Client.handleComment e t s d))) = event_votes d.
Proof.
  unfold Client.handleComment.
  destruct (Client.trimmed t s) as [content|]; [|reflexivity].
  destruct (negb (Js.truthy content)); [reflexivity|].
  destruct (Client.comment_user e) as [u|]; [|reflexivity].
  unfold insert_comment, request.
  destruct (Client.comment_fault e); [reflexivity|].
  destruct (negb (suggestion_exists s d)); reflexivity.
Qed.

Lemma handleSubmit_votes e f d :
  event_votes (fst (Client.handleSubmit e f d)) = event_votes d.
Proof.
  unfold Client.handleSubmit, insert_suggestion, request.
  destruct (Client.submit_fault e); reflexivity.
Qed.

Lemma handler_votes_shrink e w d :
  votes_shrink d (fst (Job.handler e w d)).
Proof.
  unfold Job.handler.
  destruct (negb _); [apply votes_shrink_refl|].
  destruct (select_suggestions_with_votes _ d) as [err|suggestions];
    [apply votes_shrink_refl|].
  pose proof (promote_loop_votes_shrink w (Job.toPromote e suggestions) d [])
    as H.
  destruct (Job.promote_loop w (Job.toPromote e suggestions) d []).
  exact H.
Qed.

(** Every write request keeps the pairs of the vote table distinct: the
    insert by the [UNIQUE] constraint, the others because they add no
    vote. *)
Lemma serve_unique fault r d :
  votes_unique d -> votes_unique (Job.unchecked (System.serve fault r d) d).
Proof.
  intros Hu. destruct r; simpl.
  - destruct (insert_vote fault now suggestion_id voter_id d) eqn:Hi;
      simpl; [assumption|].
    now apply (insert_vote_unique _ _ _ _ _ _ Hi).
  - destruct (delete_vote fault suggestion_id voter_id d) eqn:Hd;
      simpl; [assumption|].
    apply delete_vote_count in Hd. destruct Hd as [_ Hs].
    now apply (votes_shrink_unique d).
  - unfold insert_comment, request. destruct fault; [assumption|].
    destruct (negb _); assumption.
  - unfold insert_suggestion, request. destruct fault; assumption.
  - unfold insert_event, request. destruct fault; assumption.
  - unfold delete_votes_of, request. destruct fault; [assumption|]. simpl.
    apply (votes_shrink_unique d); [|assumption].
    eapply votes_shrink_filter. reflexivity.
  - unfold delete_comments_of, request. destruct fault; assumption.
  - unfold delete_suggestion, request. destruct fault; [assumption|]. simpl.
    apply (votes_shrink_unique d); [|assumption].
    eapply votes_shrink_filter. reflexivity.
Qed.

Lemma step_unique o d :
  votes_unique d -> votes_unique (System.step o d).
Proof.
  intros Hu. destruct o; simpl.
  - now apply handleVote_unique.
  - apply (votes_shrink_unique d); [|assumption].
    apply votes_shrink_same, handleComment_votes.
  - apply (votes_shrink_unique d); [|assumption].
    apply votes_shrink_same, handleSubmit_votes.
  - apply (votes_shrink_unique d); [|assumption].
    apply handler_votes_shrink.
  - now apply serve_unique.
Qed.

Lemma run_unique ops d :
  votes_unique d -> votes_unique (System.run ops d).
Proof.
  revert d. induction ops as [|o ops IH]; intros d Hu; simpl; [assumption|].
  apply IH, step_unique, Hu.
Qed.

(** C1. Whatever sequence of operations has been applied to the empty
    portal (votes, comments, new suggestions, promotion runs, and the
    single write requests they are made of, in any interleaving), the
    vote table holds at most one row for each (suggestion, voter) pair. *)
Theorem vote_pair_unique (ops : list System.operation) (s v : uuid) :
  (count_votes s v (System.run ops empty_db) <= 1)%nat.
Proof.
  apply run_unique. intros s' v'. unfold count_votes, votes_of_pair.
  simpl. lia.
Qed.

(** One call of [handleVote] that went through flips the vote of the
    caller. *)
Lemma handleVote_flips e s v d :
  Client.vote_user e = Some v ->
  Client.vote_succeeded (snd (Client.handleVote e s d)) = true ->
  count_votes s v (fst (Client.handleVote e s d)) =
  if (count_votes s v d =? 0)%nat then 1%nat else 0%nat.
Proof.
  intros Hu. unfold Client.handleVote. rewrite Hu.
  unfold select_votes, request.
  destruct (Client.select_fault e); [discriminate|].
  fold (votes_of_pair s v d).
  destruct (votes_of_pair s v d) as [|x l] eqn:Hv.
  - simpl.
    destruct (insert_vote _ _ s v d) as [err|d'] eqn:Hi; [discriminate|].
    intros _. simpl. apply insert_vote_count in Hi. destruct Hi as [H0 Hc].
    rewrite Hc, H0, !N.eqb_refl. reflexivity.
  - simpl.
    destruct (delete_vote _ s v d) as [err|d'] eqn:Hd; [discriminate|].
    intros _. simpl. apply delete_vote_count in Hd. destruct Hd as [H0 _].
    rewrite H0. unfold count_votes. rewrite Hv. reflexivity.
Qed.

Lemma handleVotes_parity s v es :
  Forall (fun e => Client.vote_user e = Some v) es ->
  forall d,
    forallb Client.vote_succeeded (snd (Client.handleVotes es s d)) = true ->
    (count_votes s v d <= 1)%nat ->
    count_votes s v (fst (Client.handleVotes es s d)) =
    if xorb (Nat.odd (List.length es)) (count_votes s v d =? 1)%nat
    then 1%nat else 0%nat.
Proof.
  induction 1 as [|e es He Hes IH]; intros d Hok Hc.
  - simpl. destruct (count_votes s v d) as [|[|n]]; simpl; try reflexivity. lia.
  - simpl in *.
    destruct (Client.handleVote e s d) as [d1 o] eqn:H1.
    destruct (Client.handleVotes es s d1) as [d2 os] eqn:H2.
    simpl in *. apply andb_true_iff in Hok. destruct Hok as [Ho Hos].
    pose proof (handleVote_flips e s v d He) as F. rewrite H1 in F.
    specialize (F Ho). simpl in F.
    specialize (IH d1). rewrite H2 in IH. simpl in IH.
    rewrite IH; [|assumption|rewrite F; destruct (_ =? 0)%nat; lia].
    rewrite F. rewrite Nat.odd_succ, <- Nat.negb_odd.
    destruct (count_votes s v d) as [|[|n]]; simpl;
      [destruct (Nat.odd _); reflexivity
      |destruct (Nat.odd _); reflexivity
      |lia].
Qed.

(** C2. Starting with no vote of voter [v] on suggestion [s], after [n]
    calls of [handleVote] by [v] on [s] that all went through, there is
    exactly one Vote row for the pair when [n] is odd and none when [n]
    is even. *)
Theorem castVote_toggle (s v : uuid) (es : list Client.vote_env) (d : db) :
  count_votes s v d = 0%nat ->
  Forall (fun e => Client.vote_user e = Some v) es ->
  forallb Client.vote_succeeded (snd (Client.handleVotes es s d)) = true ->
  count_votes s v (fst (Client.handleVotes es s d)) =
  if Nat.odd (List.length es) then 1%nat else 0%nat.
Proof.
  intros H0 Hu Hok.
  rewrite (handleVotes_parity s v es Hu d Hok); [|lia].
  rewrite H0. simpl. now rewrite xorb_false_r.
Qed.

(** Three toggles leave one vote, two leave none. *)
Lemma castVote_toggle_witness :
  count_votes 0 101
    (fst (Client.handleVotes
            [Scenario.voter 101 31; Scenario.voter 101 32; Scenario.voter 101 33]
            0 Scenario.suggested)) = 1%nat /\
  count_votes 0 101
    (fst (Client.handleVotes
            [Scenario.voter 101 31; Scenario.voter 101 32]
            0 Scenario.suggested)) = 0%nat.
Proof.
  split.
  - apply (castVote_toggle 0 101
             [Scenario.voter 101 31; Scenario.voter 101 32; Scenario.voter 101 33]
             Scenario.suggested);
      [reflexivity | repeat constructor | reflexivity].
  - apply (castVote_toggle 0 101
             [Scenario.voter 101 31; Scenario.voter 101 32]
             Scenario.suggested);
      [reflexivity | repeat constructor | reflexivity].
Defined.

End VoteLedgerProperties.

(** ** Properties of the promotion job *)

Section PromotionProperties.
Import Storage Spec.

(** Every candidate whose event insert is served is reported, and the
    run answers 200. *)
Lemma served_insert_reported e w d s :
  has_credential e -> Job.fetch_fault w = None ->
  In s (event_suggestions d) ->
  Js.length_ge (voteCount (sg_id s) d) (Job.VOTE_THRESHOLD e) = true ->
  Job.insert_fault w (sg_id s) = None ->
  In (sg_id s) (Job.reported (snd (Job.handler e w d))).
Proof.
  intros Hk Hf Hs Hq Hok. apply (reported_iff e w d (sg_id s) Hk Hf).
  split; [exists s; auto | auto].
Qed.

Lemma served_status e w d :
  has_credential e -> Job.fetch_fault w = None ->
  Job.status (snd (Job.handler e w d)) = 200.
Proof. intros Hk Hf. now rewrite (handler_served e w d Hk Hf). Qed.

(** C4. When the event insert for a qualifying suggestion fails, the
    suggestion, its votes and its comments stay as they were, its id is
    not reported, and the run goes on: it answers 200 and reports every
    other qualifying suggestion whose insert is served. *)
Theorem failed_insert_skips (e : Job.env) (w : Job.world) (d : db)
    (s : event_suggestion) (insErr : storage_error) :
  has_credential e ->
  Job.fetch_fault w = None ->
  In s (event_suggestions d) ->
  Js.length_ge (voteCount (sg_id s) d) (Job.VOTE_THRESHOLD e) = true ->
  Job.insert_fault w (sg_id s) = Some insErr ->
  In s (event_suggestions (fst (Job.handler e w d))) /\
  same_rows (sg_id s) d (fst (Job.handler e w d)) /\
  ~ In (sg_id s) (Job.reported (snd (Job.handler e w d))) /\
  Job.status (snd (Job.handler e w d)) = 200 /\
  forall s',
    In s' (event_suggestions d) ->
    Js.length_ge (voteCount (sg_id s') d) (Job.VOTE_THRESHOLD e) = true ->
    Job.insert_fault w (sg_id s') = None ->
    In (sg_id s') (Job.reported (snd (Job.handler e w d))).
Proof.
  intros Hk Hf Hs Hq Hfail.
  assert (~ In (sg_id s) (Job.reported (snd (Job.handler e w d)))) as Hout.
  { rewrite (reported_iff e w d (sg_id s) Hk Hf). intros (_ & _ & H).
    congruence. }
  assert (same_rows (sg_id s) d (fst (Job.handler e w d))) as Hsame.
  { rewrite (handler_served e w d Hk Hf) in *. simpl in *.
    now apply promote_loop_untouched. }
  split; [|split; [exact Hsame|split; [exact Hout|split]]].
  - destruct Hsame as (E & _ & _).
    assert (In s (filter (fun x => (sg_id x =? sg_id s)%N)
                         (event_suggestions d))) as H.
    { apply filter_In. split; [assumption | apply N.eqb_refl]. }
    rewrite <- E in H. now apply filter_In in H.
  - now apply served_status.
  - intros s' Hs' Hq' Hok'. now apply served_insert_reported.
Qed.

(** The insert for the reunion fails: it stays, with its five votes and
    its comment, and the run answers 200. *)
Lemma failed_insert_skips_witness :
  In Scenario.reunion_row
     (event_suggestions
        (fst (Job.handler Scenario.with_key (Scenario.insert_fails_for 0)
                Scenario.portal))) /\
  voteCount 0
    (fst (Job.handler Scenario.with_key (Scenario.insert_fails_for 0)
            Scenario.portal)) = 5%nat /\
  Job.status
    (snd (Job.handler Scenario.with_key (Scenario.insert_fails_for 0)
            Scenario.portal)) = 200.
Proof.
  destruct (failed_insert_skips Scenario.with_key (Scenario.insert_fails_for 0)
              Scenario.portal Scenario.reunion_row Scenario.unreachable)
    as (Hin & (_ & Hv & _) & _ & Hst & _);
    [reflexivity | reflexivity | vm_compute; left; reflexivity
    | vm_compute; reflexivity | reflexivity |].
  split; [exact Hin|]. split; [|exact Hst].
  unfold voteCount, votes_with. simpl sg_id in Hv. rewrite Hv. reflexivity.
Defined.

(** C5. Without the service role key the job answers the error payload
    with status 500 and leaves every table as it was: no event is
    created, no suggestion, vote or comment is deleted. *)
Theorem missing_credential_changes_nothing (e : Job.env) (w : Job.world)
    (d : db) :
  Js.truthy_opt (Job.SUPABASE_SERVICE_ROLE_KEY e) = false ->
  Job.handler e w d =
  (d, {| Job.status := 500;
         Job.body := Job.Error (Job.ErrorMessage "Missing service role key") |}).
Proof.
  intros Hk. unfold Job.handler. rewrite Hk. reflexivity.
Qed.

Lemma missing_credential_witness :
  Job.handler Scenario.without_key Scenario.calm Scenario.portal =
  (Scenario.portal,
   {| Job.status := 500;
      Job.body := Job.Error (Job.ErrorMessage "Missing service role key") |}).
Proof.
  apply (missing_credential_changes_nothing Scenario.without_key Scenario.calm
           Scenario.portal).
  reflexivity.
Defined.

End PromotionProperties.

Section PromotionRuns.
Import Storage Spec.

(** After a run in which every request was served, no stored suggestion
    is a candidate any more. *)
Lemma no_candidate_left e w d :
  has_credential e -> fully_succeeds w ->
  candidates e (fst (Job.handler e w d)) = [].
Proof.
  intros Hk [Hf Hall].
  rewrite (handler_served e w d Hk Hf). simpl.
  set (d1 := fst (Job.promote_loop w (candidates e d) d [])).
  destruct (candidates e d1) as [|sd rest] eqn:Hc; [reflexivity|].
  exfalso.
  assert (In sd (candidates e d1)) as Hin by (rewrite Hc; now left).
  apply In_candidates in Hin. destruct Hin as (s & Hs & _ & Hq).
  assert (In s (filter (fun x => (sg_id x =? sg_id s)%N) (event_suggestions d1)))
    as Hrow by (apply filter_In; split; [assumption | apply N.eqb_refl]).
  destruct (in_dec N.eq_dec (sg_id s)
              (map sid (filter (inserted w) (candidates e d)))) as [Hp|Hn].
  - unfold d1 in Hrow.
    rewrite (promote_loop_deleted w _ d [] (sg_id s) Hp) in Hrow.
    + destruct Hrow.
    + apply Hall.
  - destruct (promote_loop_untouched w (candidates e d) d [] (sg_id s) Hn)
      as (Es & Ev & _).
    fold d1 in Es, Ev. apply Hn.
    apply In_reported_ids. exists (with_votes d s). split; [|split].
    + apply In_candidates. exists s. split; [|split; [reflexivity|]].
      * rewrite Es in Hrow. now apply filter_In in Hrow.
      * unfold voteCount, votes_with in *. now rewrite <- Ev.
    + reflexivity.
    + apply Hall.
Qed.

(** C6. When every request of a promotion run was served, a second run
    right after it (same configuration, no vote cast in between, whatever
    happens to its own requests) promotes nothing: it reports no id and
    leaves every table as the first run left it. *)
Theorem promotion_idempotent (e : Job.env) (w1 w2 : Job.world) (d : db) :
  fully_succeeds w1 ->
  fst (Job.handler e w2 (fst (Job.handler e w1 d))) = fst (Job.handler e w1 d) /\
  Job.reported (snd (Job.handler e w2 (fst (Job.handler e w1 d)))) = [].
Proof.
  intros Hw1.
  destruct (Js.truthy_opt (Job.SUPABASE_SERVICE_ROLE_KEY e)) eqn:Hk.
  - destruct (Job.fetch_fault w2) eqn:Hf2.
    + destruct (handler_not_served e w2 (fst (Job.handler e w1 d)))
        as (E & _ & R); [right; congruence | auto].
    + rewrite (handler_served e w2 (fst (Job.handler e w1 d)) Hk Hf2).
      rewrite (no_candidate_left e w1 d Hk Hw1). simpl. auto.
  - destruct (handler_not_served e w2 (fst (Job.handler e w1 d)))
      as (E & _ & R); [left; exact Hk | auto].
Qed.

(** The first run promotes the reunion; the second, even with a failing
    storage service, changes and reports nothing. *)
Lemma promotion_idempotent_witness :
  Job.reported (snd (Job.handler Scenario.with_key Scenario.calm Scenario.portal))
    = [0%N] /\
  Job.reported
    (snd (Job.handler Scenario.with_key Scenario.cleanup_fails
            (fst (Job.handler Scenario.with_key Scenario.calm Scenario.portal))))
    = [].
Proof.
  split; [reflexivity|].
  apply (promotion_idempotent Scenario.with_key Scenario.calm
           Scenario.cleanup_fails Scenario.portal).
  split; [reflexivity | intros id; repeat split].
Defined.

(** C7. The events a run adds are, in order, one per reported suggestion,
    and each carries the title, description and location of its
    suggestion, its [proposed_date] as [event_date] and its [created_by]
    as [organizer_id]. *)
Theorem promoted_event_copies (e : Job.env) (w : Job.world) (d : db) :
  exists (ss : list event_suggestion) (evs : list event),
    Job.reported (snd (Job.handler e w d)) = map sg_id ss /\
    incl ss (event_suggestions d) /\
    events (fst (Job.handler e w d)) = events d ++ evs /\
    Forall2 copies ss evs.
Proof.
  destruct (Js.truthy_opt (Job.SUPABASE_SERVICE_ROLE_KEY e)) eqn:Hk;
    [destruct (Job.fetch_fault w) eqn:Hf|].
  - destruct (handler_not_served e w d) as (E & _ & R);
      [right; congruence|].
    exists [], []. rewrite E, R, app_nil_r.
    repeat split; [intros x [] | constructor].
  - rewrite (handler_served e w d Hk Hf). simpl.
    destruct (promote_loop_events w (candidates e d) d []) as (evs & E & F).
    exists (map row (filter (inserted w) (candidates e d))), evs.
    repeat split; try assumption.
    + unfold Job.reported. simpl. rewrite map_map. reflexivity.
    + intros s Hs. apply in_map_iff in Hs. destruct Hs as (sd & <- & Hsd).
      apply filter_In in Hsd. destruct Hsd as [Hsd _].
      apply In_candidates in Hsd. destruct Hsd as (s & Hs & -> & _).
      exact Hs.
  - destruct (handler_not_served e w d) as (E & _ & R);
      [left; exact Hk|].
    exists [], []. rewrite E, R, app_nil_r.
    repeat split; [intros x [] | constructor].
Qed.

(** C10. A qualifying suggestion whose event insert is served is
    reported and the run answers 200, whatever becomes of the three
    cleanup deletes: the response of the run does not depend on their
    faults at all. *)
Theorem cleanup_errors_ignored (e : Job.env) (w : Job.world) (d : db)
    (s : event_suggestion) :
  has_credential e ->
  Job.fetch_fault w = None ->
  In s (event_suggestions d) ->
  Js.length_ge (voteCount (sg_id s) d) (Job.VOTE_THRESHOLD e) = true ->
  Job.insert_fault w (sg_id s) = None ->
  In (sg_id s) (Job.reported (snd (Job.handler e w d))) /\
  Job.status (snd (Job.handler e w d)) = 200 /\
  forall w',
    Job.fetch_fault w' = None ->
    (forall i, Job.insert_fault w' i = Job.insert_fault w i) ->
    snd (Job.handler e w' d) = snd (Job.handler e w d).
Proof.
  intros Hk Hf Hs Hq Hok. split; [|split].
  - now apply served_insert_reported.
  - now apply served_status.
  - intros w' Hf' Hsame.
    rewrite (handler_served e w d Hk Hf), (handler_served e w' d Hk Hf').
    simpl. do 3 f_equal. apply filter_ext. intros sd.
    unfold inserted. now rewrite Hsame.
Qed.

(** All three cleanup deletes of the reunion fail: it is reported all
    the same, with the response of the run whose deletes are served. *)
Lemma cleanup_errors_ignored_witness :
  In 0%N (Job.reported (snd (Job.handler Scenario.with_key Scenario.cleanup_fails
                               Scenario.portal))) /\
  snd (Job.handler Scenario.with_key Scenario.calm Scenario.portal) =
  snd (Job.handler Scenario.with_key Scenario.cleanup_fails Scenario.portal).
Proof.
  destruct (cleanup_errors_ignored Scenario.with_key Scenario.cleanup_fails
              Scenario.portal Scenario.reunion_row)
    as (Hin & _ & Hany);
    [reflexivity | reflexivity | vm_compute; left; reflexivity
    | vm_compute; reflexivity | reflexivity |].
  split; [exact Hin|].
  apply (Hany Scenario.calm); [reflexivity | intros i; reflexivity].
Defined.

End PromotionRuns.

(** ** Properties of the comment ledger *)

Section CommentLedgerProperties.
Import Storage Spec.

Lemma ascending_cons a l :
  ascending (a :: l) = true <-> Forall (Z.le a) l /\ ascending l = true.
Proof.
  revert a. induction l as [|b l IH]; intros a.
  - simpl. split; auto.
  - change (ascending (a :: b :: l)) with ((a <=? b)%Z && ascending (b :: l)).
    rewrite andb_true_iff, Z.leb_le. split.
    + intros [Hab Hbl]. split; [|assumption].
      constructor; [assumption|].
      apply IH in Hbl. destruct Hbl as [Hf _].
      eapply Forall_impl; [|exact Hf]. intros x Hx. lia.
    + intros [Hf Hbl]. inversion Hf; subst. split; assumption.
Qed.

(** Taking rows out of an ascending table leaves it ascending. *)
Lemma ascending_filter {A : Type} (f : A -> timestamptz) (p : A -> bool) l :
  ascending (map f l) = true -> ascending (map f (filter p l)) = true.
Proof.
  induction l as [|x l IH]; [reflexivity|].
  cbn [map filter]. intros H. apply ascending_cons in H.
  destruct H as [Hf Hl]. destruct (p x); [|now apply IH].
  cbn [map]. apply ascending_cons. split; [|now apply IH].
  rewrite Forall_forall in *. intros t Ht.
  apply in_map_iff in Ht. destruct Ht as (y & <- & Hy).
  apply filter_In in Hy. destruct Hy as [Hy _].
  apply Hf, in_map, Hy.
Qed.

Lemma In_feed d S :
  In S (feed d) ->
  exists s, In s (event_suggestions d) /\
            S = Client.mapped (with_votes_and_comments d s).
Proof.
  unfold feed, Client.fetchSuggestions, select_suggestions_feed, request.
  simpl. rewrite map_map, in_map_iff. intros (s & <- & Hs).
  rewrite In_sort_by in Hs. exists s. auto.
Qed.

(** C8 as the specification words it does not hold: the comments under the
    reunion of [Scenario.overlapping] are shown with creation times 70
    then 60. *)
Lemma feed_comments_unsorted :
  ~ (forall d S, In S (feed d) -> ascending (shown_times S) = true).
Proof.
  intros H.
  specialize (H Scenario.overlapping
                (Client.mapped
                   (with_votes_and_comments Scenario.overlapping
                      Scenario.reunion_row))).
  assert (ascending [70; 60] = true) as Habs.
  { apply H. right. left. reflexivity. }
  discriminate Habs.
Qed.

(** C8, amended. The comments shown under a suggestion of the feed are
    the stored comments of that suggestion in storage order (nothing
    sorts them); they are in ascending order of creation time whenever
    the stored comments are. *)
Theorem feed_comments_storage_order (d : db) (S : Client.Suggestion) :
  In S (feed d) ->
  Client.comments S =
    map comment_item_of (comments_with (sg_id (row (Client.fetched S))) d) /\
  (ascending (stored_times d) = true -> ascending (shown_times S) = true).
Proof.
  intros HS. apply In_feed in HS. destruct HS as (s & _ & ->).
  split; [reflexivity|].
  unfold shown_times, stored_times. simpl. unfold comments_of.
  rewrite map_map. simpl.
  apply (ascending_filter cm_created_at).
Qed.

(** Two comments on the reunion, stored in the order of their creation
    times 50 and 60, are shown in that order. *)
Lemma feed_comments_storage_order_witness :
  shown_times
    (Client.mapped
       (with_votes_and_comments Scenario2.chatty Scenario.reunion_row))
    = [50; 60] /\
  ascending
    (shown_times
       (Client.mapped
          (with_votes_and_comments Scenario2.chatty Scenario.reunion_row)))
    = true.
Proof.
  split; [vm_compute; reflexivity|].
  apply (feed_comments_storage_order Scenario2.chatty
           (Client.mapped
              (with_votes_and_comments Scenario2.chatty Scenario.reunion_row))).
  - vm_compute. right. left. reflexivity.
  - vm_compute. reflexivity.
Defined.

(** C9 as the specification words it does not hold: with no commenter and a
    blank text, [handleComment] leaves through the empty-content guard,
    not with the login notification. *)
Lemma absent_commenter_blank_text :
  ~ (forall e t s d,
       Client.comment_user e = None ->
       snd (Client.handleComment e t s d) = Client.CommentLoginRequired).
Proof.
  intros H.
  specialize (H (Scenario.commenter None 50) (Scenario.typed "   ") 0%N
                Scenario.suggested eq_refl).
  discriminate H.
Qed.

(** C9, amended. A text that is blank after trimming makes
    [handleComment] return at its first guard, whoever the commenter is:
    nothing is sent to storage, the tables and the typed text are as
    before, and no notification is shown. A text that is not blank, with
    no commenter signed in, ends in the login notification, again with
    nothing sent to storage. *)
Theorem handleComment_guards (e : Client.comment_env)
    (t : Client.comment_texts) (s : uuid) (d : db) :
  (blank t s = true ->
   Client.handleComment e t s d = (d, t, Client.CommentEmpty)) /\
  (blank t s = false -> Client.comment_user e = None ->
   Client.handleComment e t s d = (d, t, Client.CommentLoginRequired)).
Proof.
  unfold blank, Client.handleComment.
  destruct (Client.trimmed t s) as [content|].
  - split.
    + intros ->. reflexivity.
    + intros -> ->. reflexivity.
  - split; [reflexivity | discriminate].
Qed.

Lemma handleComment_guards_witness :
  Client.handleComment (Scenario.commenter (Some 101%N) 50)
    (Scenario.typed "   ") 0 Scenario.suggested =
    (Scenario.suggested, Scenario.typed "   ", Client.CommentEmpty) /\
  Client.handleComment (Scenario.commenter None 50)
    (Scenario.typed "hello") 0 Scenario.suggested =
    (Scenario.suggested, Scenario.typed "hello", Client.CommentLoginRequired).
Proof.
  split.
  - apply (handleComment_guards (Scenario.commenter (Some 101%N) 50)
             (Scenario.typed "   ") 0%N Scenario.suggested).
    reflexivity.
  - apply (handleComment_guards (Scenario.commenter None 50)
             (Scenario.typed "hello") 0%N Scenario.suggested);
      reflexivity.
Defined.

End CommentLedgerProperties.


(** ** Further properties of the storage requests and of the handlers *)

Section Invariants.
Import Storage Spec Vocabulary.

(** The event insert of a candidate, when served, is [with_event]. *)
Lemma with_event_served w s d :
  insert_event None (Job.insert_now w (sid s)) (Job.insert_record (row s)) d =
  inr (with_event w s d).
Proof. reflexivity. Qed.

(** What every served write request preserves, every step of the cleanup
    preserves. *)
Lemma cleanup_preserves (P : db -> Prop) :
  (forall fault r d d', P d -> System.serve fault r d = inr d' -> P d') ->
  forall w i d, P d -> P (Job.cleanup w i d).
Proof.
  intros Hserve w i d HP. unfold Job.cleanup.
  assert (forall fault r d0, P d0 -> P (Job.unchecked (System.serve fault r d0) d0))
    as Hun.
  { intros fault r d0 H0. destruct (System.serve fault r d0) eqn:E; simpl;
      [assumption | eapply Hserve; eassumption]. }
  apply (Hun _ (System.DeleteSuggestion i)).
  apply (Hun _ (System.DeleteCommentsOf i)).
  apply (Hun _ (System.DeleteVotesOf i)). exact HP.
Qed.

Lemma promote_loop_preserves (P : db -> Prop) :
  (forall fault r d d', P d -> System.serve fault r d = inr d' -> P d') ->
  forall w cands d acc, P d -> P (fst (Job.promote_loop w cands d acc)).
Proof.
  intros Hserve w cands. induction cands as [|s rest IH]; intros d acc HP.
  - exact HP.
  - rewrite promote_loop_cons. destruct (inserted w s); [|now apply IH].
    apply IH. apply cleanup_preserves; [assumption|].
    apply (Hserve None
             (System.InsertEvent (Job.insert_now w (sid s))
                (Job.insert_record (row s))) d); [assumption|].
    apply with_event_served.
Qed.

(** A property of the tables that every served write request preserves is
    preserved by every operation of the system. *)
Lemma step_preserves (P : db -> Prop) :
  (forall fault r d d', P d -> System.serve fault r d = inr d' -> P d') ->
  forall o d, P d -> P (System.step o d).
Proof.
  intros Hserve o d HP. destruct o; simpl.
  - unfold Client.handleVote.
    destruct (Client.vote_user e) as [u|]; [|assumption].
    destruct (select_votes _ suggestionId u d) as [err|existing]; [assumption|].
    destruct (0 <? List.length existing)%nat.
    + destruct (delete_vote _ suggestionId u d) as [err|d'] eqn:E; [assumption|].
      apply (Hserve _ (System.DeleteVote suggestionId u) d d' HP E).
    + destruct (insert_vote _ _ suggestionId u d) as [err|d'] eqn:E;
        [assumption|].
      apply (Hserve _ (System.InsertVote _ suggestionId u) d d' HP E).
  - unfold Client.handleComment.
    destruct (Client.trimmed commentText suggestionId) as [content|];
      [|assumption].
    destruct (negb (Js.truthy content)); [assumption|].
    destruct (Client.comment_user e) as [u|]; [|assumption].
    destruct (insert_comment _ _ suggestionId content u d) as [err|d'] eqn:E;
      [assumption|].
    apply (Hserve _ (System.InsertComment _ suggestionId content u) d d' HP E).
  - unfold Client.handleSubmit.
    match goal with
    | |- context [insert_suggestion ?f ?n ?p d] =>
        destruct (insert_suggestion f n p d) as [err|d'] eqn:E;
          [assumption
          | apply (Hserve f (System.InsertSuggestion n p) d d' HP E)]
    end.
  - unfold Job.handler.
    destruct (negb _); [assumption|].
    destruct (select_suggestions_with_votes _ d) as [err|suggestions];
      [assumption|].
    pose proof (promote_loop_preserves P Hserve w (Job.toPromote e suggestions)
                  d [] HP) as H.
    destruct (Job.promote_loop w (Job.toPromote e suggestions) d []).
    exact H.
  - destruct (System.serve fault r d) eqn:E; simpl;
      [assumption | eapply Hserve; eassumption].
Qed.

Lemma run_preserves (P : db -> Prop) :
  (forall fault r d d', P d -> System.serve fault r d = inr d' -> P d') ->
  forall ops d, P d -> P (System.run ops d).
Proof.
  intros Hserve ops. induction ops as [|o ops IH]; intros d HP; simpl;
    [assumption|].
  apply IH, step_preserves; assumption.
Qed.

Lemma suggestion_exists_iff i d :
  suggestion_exists i d = true <->
  exists s, In s (event_suggestions d) /\ sg_id s = i.
Proof.
  unfold suggestion_exists. rewrite existsb_exists.
  split; intros (s & Hs & E); exists s; split; try assumption;
    now apply N.eqb_eq.
Qed.

Lemma suggestion_exists_same d d' i :
  event_suggestions d' = event_suggestions d ->
  suggestion_exists i d' = suggestion_exists i d.
Proof. unfold suggestion_exists. now intros ->. Qed.

(** The references and the freshness of ids survive every served write:
    an insert is checked against [event_suggestions], a delete of a
    suggestion takes its votes and comments along. *)
Lemma serve_consistent fault r d d' :
  consistent d -> System.serve fault r d = inr d' -> consistent d'.
Proof.
  intros [[Hv Hc] Hf] H.
  destruct r; simpl in H;
    unfold insert_vote, delete_vote, insert_comment, insert_suggestion,
      insert_event, delete_votes_of, delete_comments_of, delete_suggestion,
      request in H;
    (destruct fault; [discriminate|]).
  - destruct (negb (suggestion_exists suggestion_id d)) eqn:Hex; [discriminate|].
    destruct (existsb _ _); [discriminate|]. injection H as <-.
    apply negb_false_iff in Hex.
    split; [split|]; simpl.
    + intros v Hin. apply in_app_or in Hin. destruct Hin as [Hin|[<-|[]]].
      * now apply Hv.
      * exact Hex.
    + exact Hc.
    + intros s Hs. specialize (Hf s Hs). simpl. lia.
  - injection H as <-. split; [split|]; simpl.
    + intros v Hin. apply filter_In in Hin. now apply Hv.
    + exact Hc.
    + exact Hf.
  - destruct (negb (suggestion_exists suggestion_id d)) eqn:Hex; [discriminate|].
    injection H as <-. apply negb_false_iff in Hex.
    split; [split|]; simpl.
    + exact Hv.
    + intros c Hin. apply in_app_or in Hin. destruct Hin as [Hin|[<-|[]]].
      * now apply Hc.
      * exact Hex.
    + intros s Hs. specialize (Hf s Hs). simpl. lia.
  - injection H as <-. split; [split|]; simpl.
    + intros v Hin. unfold suggestion_exists. simpl.
      rewrite existsb_app. apply orb_true_iff. left. now apply Hv.
    + intros c Hin. unfold suggestion_exists. simpl.
      rewrite existsb_app. apply orb_true_iff. left. now apply Hc.
    + intros s Hs. simpl in *. apply in_app_or in Hs.
      destruct Hs as [Hs|[<-|[]]]; [specialize (Hf s Hs)|]; simpl; lia.
  - injection H as <-. split; [split|]; simpl.
    + exact Hv.
    + exact Hc.
    + intros s Hs. specialize (Hf s Hs). simpl. lia.
  - injection H as <-. split; [split|]; simpl.
    + intros v Hin. apply filter_In in Hin. now apply Hv.
    + exact Hc.
    + exact Hf.
  - injection H as <-. split; [split|]; simpl.
    + exact Hv.
    + intros c Hin. apply filter_In in Hin. now apply Hc.
    + exact Hf.
  - injection H as <-. split; [split|]; simpl.
    + intros v Hin. apply filter_In in Hin. destruct Hin as [Hin Hne].
      apply suggestion_exists_iff. specialize (Hv v Hin).
      apply suggestion_exists_iff in Hv. destruct Hv as (s & Hs & E).
      exists s. split; [|assumption]. simpl. apply filter_In.
      split; [assumption|]. now rewrite E.
    + intros c Hin. apply filter_In in Hin. destruct Hin as [Hin Hne].
      apply suggestion_exists_iff. specialize (Hc c Hin).
      apply suggestion_exists_iff in Hc. destruct Hc as (s & Hs & E).
      exists s. split; [|assumption]. simpl. apply filter_In.
      split; [assumption|]. now rewrite E.
    + intros s Hs. simpl in Hs. apply filter_In in Hs. now apply Hf.
Qed.

Lemma empty_consistent : consistent empty_db.
Proof. split; [split|]; intros x []. Qed.

(** X1. Referential integrity: after any sequence of operations on the
    empty portal (handlers and single write requests, in any interleaving),
    every vote and every comment references a suggestion that is stored. *)
Theorem no_orphan_rows (ops : list System.operation) :
  references_hold (System.run ops empty_db).
Proof.
  apply (run_preserves consistent serve_consistent ops empty_db empty_consistent).
Qed.

End Invariants.

(** ** Further properties of the vote ledger and of the feed *)

Section VotesAndFeed.
Import Storage Spec Vocabulary.

(** X2. A client action that does not go through leaves no partial state:
    [handleVote] that ends with the login notice or an error, and
    [handleComment] that ends anywhere but in the insert, return the tables
    (and the typed texts) they were given; so does a [handleSubmit] that
    ends with the error toast. *)
Theorem failed_action_changes_nothing :
  (forall e s d,
     Client.vote_succeeded (snd (Client.handleVote e s d)) = false ->
     fst (Client.handleVote e s d) = d) /\
  (forall e t s d,
     snd (Client.handleComment e t s d) <> Client.CommentInserted ->
     fst (Client.handleComment e t s d) = (d, t)) /\
  (forall e f d description,
     snd (Client.handleSubmit e f d) = Client.ToastError description ->
     fst (Client.handleSubmit e f d) = d).
Proof.
  split; [|split].
  - intros e s d. unfold Client.handleVote.
    destruct (Client.vote_user e) as [u|]; [|reflexivity].
    destruct (select_votes _ s u d) as [err|existing]; [reflexivity|].
    destruct (0 <? List.length existing)%nat.
    + destruct (delete_vote _ s u d); [reflexivity | discriminate].
    + destruct (insert_vote _ _ s u d); [reflexivity | discriminate].
  - intros e t s d. unfold Client.handleComment.
    destruct (Client.trimmed t s) as [content|]; [|reflexivity].
    destruct (negb (Js.truthy content)); [reflexivity|].
    destruct (Client.comment_user e) as [u|]; [|reflexivity].
    destruct (insert_comment _ _ s content u d); [reflexivity|].
    simpl. congruence.
  - intros e f d description. unfold Client.handleSubmit.
    match goal with
    | |- context [insert_suggestion ?a ?b ?c d] =>
        destruct (insert_suggestion a b c d)
    end; [reflexivity | discriminate].
Qed.

Lemma failed_action_witness :
  fst (Client.handleVote (Scenario.voter 101 36) 7 Scenario.portal) =
  Scenario.portal.
Proof.
  apply (proj1 failed_action_changes_nothing). reflexivity.
Defined.

(** X3. A call of [handleVote] touches the vote of its caller on its
    suggestion and nothing else: the Vote rows of every other (suggestion,
    voter) pair are the same rows in the same order, and the suggestions,
    the comments and the events are as they were. *)
Theorem handleVote_frame (e : Client.vote_env) (s : uuid) (d : db)
    (s' v' : uuid) :
  s' <> s \/ Client.vote_user e <> Some v' ->
  votes_of_pair s' v' (fst (Client.handleVote e s d)) = votes_of_pair s' v' d /\
  event_suggestions (fst (Client.handleVote e s d)) = event_suggestions d /\
  event_comments (fst (Client.handleVote e s d)) = event_comments d /\
  events (fst (Client.handleVote e s d)) = events d.
Proof.
  intros Hother. unfold Client.handleVote.
  destruct (Client.vote_user e) as [u|]; [|auto].
  assert (forall x, votes_eq s' v' x = true -> votes_eq s u x = false) as Hne.
  { intros x Hx. apply votes_eq_iff in Hx. destruct Hx as [Hs Hv].
    apply not_true_iff_false. intros Hy. apply votes_eq_iff in Hy.
    destruct Hy as [Hs' Hv']. destruct Hother as [H|H].
    - apply H. congruence.
    - apply H. congruence. }
  destruct (select_votes _ s u d) as [err|existing]; [auto|].
  destruct (0 <? List.length existing)%nat.
  - unfold delete_vote, request. destruct (Client.delete_fault e); [auto|].
    simpl. repeat split. unfold votes_of_pair. simpl.
    apply filter_other. intros x Hx. now rewrite (Hne x Hx).
  - unfold insert_vote, request. destruct (Client.insert_fault e); [auto|].
    destruct (negb (suggestion_exists s d)); [auto|].
    destruct (existsb (votes_eq s u) (event_votes d)); [auto|].
    simpl. repeat split. unfold votes_of_pair. simpl.
    rewrite filter_app. simpl.
    match goal with |- context [votes_eq s' v' ?x] =>
      destruct (votes_eq s' v' x) eqn:Hx end.
    + apply Hne in Hx. unfold votes_eq in Hx. simpl in Hx.
      now rewrite !N.eqb_refl in Hx.
    + apply app_nil_r.
Qed.

Lemma handleVote_frame_witness :
  votes_of_pair 0 102 (fst (Client.handleVote (Scenario.voter 101 36) 0
                              Scenario.portal)) =
  votes_of_pair 0 102 Scenario.portal.
Proof.
  apply (handleVote_frame (Scenario.voter 101 36) 0 Scenario.portal 0 102).
  right. discriminate.
Defined.

(** X4. No counter drift: for every suggestion of the feed, [vote_count]
    is the number of Vote rows stored for it, [votes] has that many ids,
    and [comments] has as many elements as Comment rows are stored for
    it. *)
Theorem feed_counts_are_exact (d : db) (S : Client.Suggestion) :
  In S (feed d) ->
  Client.vote_count S = voteCount (sg_id (row (Client.fetched S))) d /\
  List.length (Client.votes S) = Client.vote_count S /\
  List.length (Client.comments S) =
    List.length (comments_with (sg_id (row (Client.fetched S))) d).
Proof.
  intros HS. apply In_feed in HS. destruct HS as (s & _ & ->).
  unfold Client.mapped, Client.votes_length, with_votes_and_comments,
    vote_ids_of, comments_of, voteCount, votes_with, comments_with.
  simpl. rewrite !length_map. auto.
Qed.

Lemma feed_counts_witness :
  Client.vote_count Scenario2.reunion_shown =
    voteCount (sg_id (row (Client.fetched Scenario2.reunion_shown)))
      Scenario.portal /\
  List.length (Client.votes Scenario2.reunion_shown) =
    Client.vote_count Scenario2.reunion_shown /\
  List.length (Client.comments Scenario2.reunion_shown) =
    List.length
      (comments_with (sg_id (row (Client.fetched Scenario2.reunion_shown)))
         Scenario.portal).
Proof.
  apply (feed_counts_are_exact Scenario.portal Scenario2.reunion_shown).
  vm_compute. right. left. reflexivity.
Defined.

(** Splitting the rows that [p] selects by a second test [q]. *)
Lemma filter_split_length {A : Type} (p q : A -> bool) (l : list A) :
  List.length (filter p l) =
  (List.length (filter p (filter (fun x => negb (q x)) l)) +
   List.length (filter (fun x => p x && q x) l))%nat.
Proof.
  induction l as [|a l IH]; [reflexivity|]. simpl.
  destruct (p a) eqn:Hp, (q a) eqn:Hq; simpl; rewrite ?Hp; simpl; lia.
Qed.

(** X5. A vote that goes through moves the displayed count of its
    suggestion by exactly one and leaves the count of every other
    suggestion alone: up by one when the vote is inserted, down by one
    when it is removed (the pairs of the vote table being distinct). *)
Theorem vote_moves_count_by_one (e : Client.vote_env) (s : uuid) (d : db) :
  votes_unique d ->
  (snd (Client.handleVote e s d) = Client.VoteInserted ->
   voteCount s (fst (Client.handleVote e s d)) = Datatypes.S (voteCount s d)) /\
  (snd (Client.handleVote e s d) = Client.VoteRemoved ->
   Datatypes.S (voteCount s (fst (Client.handleVote e s d))) = voteCount s d) /\
  (forall s', s' <> s ->
     voteCount s' (fst (Client.handleVote e s d)) = voteCount s' d).
Proof.
  intros Hu. unfold Client.handleVote.
  destruct (Client.vote_user e) as [u|];
    [|repeat split; try discriminate; reflexivity].
  unfold select_votes, request.
  destruct (Client.select_fault e);
    [repeat split; try discriminate; reflexivity|].
  fold (votes_of_pair s u d).
  destruct (votes_of_pair s u d) as [|x l] eqn:Hv; simpl.
  - unfold insert_vote, request. destruct (Client.insert_fault e);
      [repeat split; try discriminate; reflexivity|].
    destruct (negb (suggestion_exists s d));
      [repeat split; try discriminate; reflexivity|].
    destruct (existsb (votes_eq s u) (event_votes d));
      [repeat split; try discriminate; reflexivity|].
    simpl. unfold voteCount, votes_with. simpl.
    split; [|split]; try discriminate.
    + intros _. rewrite filter_snoc_length. simpl. rewrite N.eqb_refl. lia.
    + intros s' Hne. rewrite filter_snoc_length. simpl.
      apply N.eqb_neq in Hne. rewrite N.eqb_sym, Hne. lia.
  - unfold delete_vote, request. destruct (Client.delete_fault e);
      [repeat split; try discriminate; reflexivity|].
    simpl. unfold voteCount, votes_with. simpl.
    split; [|split]; try discriminate.
    + intros _.
      rewrite (filter_split_length (fun v => (vt_suggestion_id v =? s)%N)
                 (votes_eq s u) (event_votes d)).
      assert (List.length
                (filter (fun v => (vt_suggestion_id v =? s)%N && votes_eq s u v)
                        (event_votes d)) = 1%nat) as E.
      { rewrite (filter_ext _ (votes_eq s u)).
        - specialize (Hu s u). unfold count_votes in Hu. rewrite Hv in *.
          fold (votes_of_pair s u d). rewrite Hv. simpl in *. lia.
        - intros v. unfold votes_eq.
          destruct (vt_suggestion_id v =? s)%N; reflexivity. }
      rewrite E. lia.
    + intros s' Hne. f_equal. apply filter_other. intros v Hv'.
      apply negb_true_iff, not_true_iff_false. intros Hy.
      apply votes_eq_iff in Hy. apply N.eqb_eq in Hv'. destruct Hy. congruence.
Qed.

Lemma vote_moves_count_witness :
  voteCount 1 (fst (Client.handleVote (Scenario.voter 105 45) 1 Scenario.portal))
  = Datatypes.S (voteCount 1 Scenario.portal).
Proof.
  assert (votes_unique Scenario.portal) as Hu.
  { unfold Scenario.portal. apply run_unique.
    unfold Scenario.suggested. apply run_unique.
    intros s0 v0. unfold count_votes, votes_of_pair. simpl. lia. }
  destruct (vote_moves_count_by_one (Scenario.voter 105 45) 1 Scenario.portal Hu)
    as (Hins & _ & _).
  apply Hins. vm_compute. reflexivity.
Defined.

End VotesAndFeed.

(** ** The orders the pages and the job rely on *)

Section Orders.
Import Storage Spec Vocabulary.

Lemma insert_by_perm {A : Type} (le : A -> A -> bool) x l :
  Permutation (insert_by le x l) (x :: l).
Proof.
  induction l as [|y l IH]; simpl; [reflexivity|].
  destruct (le x y); [reflexivity|].
  rewrite IH. apply perm_swap.
Qed.

Lemma sort_by_perm {A : Type} (le : A -> A -> bool) l :
  Permutation (sort_by le l) l.
Proof.
  induction l as [|x l IH]; simpl; [reflexivity|].
  rewrite insert_by_perm. now constructor.
Qed.

Lemma insert_by_sorted {A : Type} (le : A -> A -> bool) x l :
  (forall a b, le a b = false -> le b a = true) ->
  Sorted (fun a b => le a b = true) l ->
  Sorted (fun a b => le a b = true) (insert_by le x l).
Proof.
  intros Htot. induction 1 as [|y l Hl IH Hd]; simpl.
  - repeat constructor.
  - destruct (le x y) eqn:E.
    + constructor; [constructor; assumption | constructor; assumption].
    + constructor; [assumption|].
      destruct l as [|z l]; simpl.
      * constructor. now apply Htot.
      * destruct (le x z); constructor; [now apply Htot|].
        now inversion Hd.
Qed.

Lemma sort_by_sorted {A : Type} (le : A -> A -> bool) l :
  (forall a b, le a b = false -> le b a = true) ->
  Sorted (fun a b => le a b = true) (sort_by le l).
Proof.
  intros Htot. induction l as [|x l IH]; simpl; [constructor|].
  now apply insert_by_sorted.
Qed.

Lemma descending_of_sorted l :
  Sorted (fun a b => created_desc a b = true) l ->
  descending (map sg_created_at l) = true.
Proof.
  induction 1 as [|a l Hl IH Hd]; [reflexivity|].
  destruct l as [|b l]; [reflexivity|].
  change (descending (map sg_created_at (a :: b :: l)))
    with ((sg_created_at b <=? sg_created_at a)%Z &&
          descending (map sg_created_at (b :: l))).
  inversion Hd as [|? ? Hab]; subst.
  unfold created_desc in Hab. now rewrite Hab, IH.
Qed.

Lemma ascending_of_sorted l :
  Sorted (fun a b => created_asc a b = true) l ->
  ascending (map sg_created_at l) = true.
Proof.
  induction 1 as [|a l Hl IH Hd]; [reflexivity|].
  destruct l as [|b l]; [reflexivity|].
  change (ascending (map sg_created_at (a :: b :: l)))
    with ((sg_created_at a <=? sg_created_at b)%Z &&
          ascending (map sg_created_at (b :: l))).
  inversion Hd as [|? ? Hab]; subst.
  unfold created_asc in Hab. now rewrite Hab, IH.
Qed.

Lemma dates_of_sorted l :
  Sorted (fun a b => EventsPage.date_le a b = true) l ->
  dates_ascending (map ev_event_date l) = true.
Proof.
  induction 1 as [|a l Hl IH Hd]; [reflexivity|].
  destruct l as [|b l]; [reflexivity|].
  inversion Hd as [|? ? Hab]; subst.
  unfold EventsPage.date_le in Hab.
  cbn [map dates_ascending] in *.
  destruct (ev_event_date a), (ev_event_date b);
    rewrite ?Hab; try discriminate; exact IH.
Qed.

(** X6. The feed shows every stored suggestion exactly once, newest
    first. *)
Theorem feed_newest_first (d : db) :
  Permutation (map (fun S => row (Client.fetched S)) (feed d))
              (event_suggestions d) /\
  descending (map (fun S => sg_created_at (row (Client.fetched S))) (feed d))
    = true.
Proof.
  unfold feed, Client.fetchSuggestions, select_suggestions_feed, request.
  cbn [fst]. rewrite !map_map. cbn [Client.fetched Client.mapped row
    with_votes_and_comments]. split.
  - rewrite map_id. apply sort_by_perm.
  - apply descending_of_sorted, sort_by_sorted.
    intros a b. unfold created_desc. rewrite Z.leb_gt, Z.leb_le. lia.
Qed.

(** X7. The job reports the promoted suggestions oldest first: the
    reported ids are those of stored suggestions listed in ascending order
    of [created_at]. *)
Theorem promoted_oldest_first (e : Job.env) (w : Job.world) (d : db) :
  exists ss : list event_suggestion,
    Job.reported (snd (Job.handler e w d)) = map sg_id ss /\
    incl ss (event_suggestions d) /\
    ascending (map sg_created_at ss) = true.
Proof.
  destruct (Js.truthy_opt (Job.SUPABASE_SERVICE_ROLE_KEY e)) eqn:Hk;
    [destruct (Job.fetch_fault w) eqn:Hf|].
  - destruct (handler_not_served e w d) as (_ & _ & R); [right; congruence|].
    exists []. rewrite R. repeat split. intros x [].
  - rewrite (handler_served e w d Hk Hf). cbn [snd Job.reported Job.body].
    exists (map row (filter (inserted w) (candidates e d))).
    split; [now rewrite map_map|]. split.
    + intros s Hs. apply in_map_iff in Hs. destruct Hs as (sd & <- & Hsd).
      apply filter_In in Hsd. destruct Hsd as [Hsd _].
      apply In_candidates in Hsd. destruct Hsd as (s & Hs & -> & _).
      exact Hs.
    + rewrite map_map.
      apply (ascending_filter (fun sd => sg_created_at (row sd))).
      unfold candidates, Job.toPromote.
      apply (ascending_filter (fun sd => sg_created_at (row sd))).
      rewrite map_map. cbn [row with_votes].
      apply ascending_of_sorted, sort_by_sorted.
      intros a b. unfold created_asc. rewrite Z.leb_gt, Z.leb_le. lia.
  - destruct (handler_not_served e w d) as (_ & _ & R); [left; exact Hk|].
    exists []. rewrite R. repeat split. intros x [].
Qed.

(** X8. The events page shows every stored event exactly once, the dated
    ones in ascending order of [event_date] and the undated ones after
    them. *)
Theorem events_page_order (d : db) (current : list event) :
  Permutation (fst (EventsPage.fetchEvents None d current)) (events d) /\
  dates_ascending
    (map ev_event_date (fst (EventsPage.fetchEvents None d current))) = true.
Proof.
  unfold EventsPage.fetchEvents, EventsPage.select_events, request.
  cbn [fst]. split.
  - apply sort_by_perm.
  - apply dates_of_sorted, sort_by_sorted.
    intros a b. unfold EventsPage.date_le.
    destruct (ev_event_date a), (ev_event_date b); try reflexivity;
      try discriminate.
    rewrite Z.leb_gt, Z.leb_le. lia.
Qed.

End Orders.

(** ** Further properties of comments and of new suggestions *)

Section CommentsAndSuggestions.
Import Storage Spec Vocabulary.

Lemma trim_start_head l c t :
  Js.trim_start l = c :: t -> Js.is_whitespace c = false.
Proof.
  induction l as [|a l IH]; simpl; [discriminate|].
  destruct (Js.is_whitespace a) eqn:E; [exact IH|].
  intros H. injection H as <- _. exact E.
Qed.

Lemma trim_start_suffix l :
  exists pre, l = pre ++ Js.trim_start l.
Proof.
  induction l as [|a l [pre IH]]; simpl.
  - exists []. reflexivity.
  - destruct (Js.is_whitespace a).
    + exists (a :: pre). simpl. now f_equal.
    + exists []. reflexivity.
Qed.

Lemma last_cons {A : Type} (c : A) t d :
  last (c :: t) d = last t c.
Proof.
  revert c d. induction t as [|a t IH]; intros c d; [reflexivity|].
  change (last (c :: a :: t) d) with (last (a :: t) d).
  rewrite (IH a d). symmetry. apply (IH a c).
Qed.

(** What [trim] returns neither starts nor ends with white space. *)
Lemma trim_chars_ends l :
  match Js.trim_chars l with
  | [] => True
  | c :: t => Js.is_whitespace c = false /\ Js.is_whitespace (last t c) = false
  end.
Proof.
  unfold Js.trim_chars, Js.trim_end.
  destruct (Js.trim_start (rev (Js.trim_start l))) as [|c0 k] eqn:K;
    [exact I|].
  pose proof (trim_start_head _ _ _ K) as Hc0.
  destruct (trim_start_suffix (rev (Js.trim_start l))) as [pre Hpre].
  rewrite K in Hpre.
  assert (Js.trim_start l = rev (c0 :: k) ++ rev pre) as Hm.
  { rewrite <- rev_app_distr, <- Hpre. symmetry. apply rev_involutive. }
  destruct (rev (c0 :: k)) as [|c t] eqn:E.
  - simpl in E. symmetry in E. now apply app_cons_not_nil in E.
  - split.
    + simpl in Hm. now apply trim_start_head in Hm.
    + rewrite <- (last_cons c t c0), <- E. simpl. now rewrite last_last.
Qed.

Lemma trim_ends s :
  is_whitespace_free_at_ends (Js.trim s).
Proof.
  unfold is_whitespace_free_at_ends, Js.trim.
  rewrite list_ascii_of_string_of_list_ascii. apply trim_chars_ends.
Qed.

(** X9. A comment that [handleComment] stores is the typed text trimmed:
    it is not empty and has no white space at either end; it is appended
    as one row for the suggestion and the signed-in user, the other tables
    are untouched, and the text box of that suggestion (and of no other)
    is emptied. *)
Theorem stored_comment_is_trimmed (e : Client.comment_env)
    (t : Client.comment_texts) (s : uuid) (d : db) :
  snd (Client.handleComment e t s d) = Client.CommentInserted ->
  exists content u,
    option_map Js.trim (t s) = Some content /\
    Client.comment_user e = Some u /\
    content <> "" /\
    is_whitespace_free_at_ends content /\
    event_comments (fst (fst (Client.handleComment e t s d))) =
      event_comments d ++
      [{| cm_id := next_uuid d; cm_suggestion_id := s; cm_commenter_id := u;
          cm_content := content; cm_created_at := Client.comment_now e |}] /\
    event_suggestions (fst (fst (Client.handleComment e t s d))) =
      event_suggestions d /\
    event_votes (fst (fst (Client.handleComment e t s d))) = event_votes d /\
    events (fst (fst (Client.handleComment e t s d))) = events d /\
    snd (fst (Client.handleComment e t s d)) s = Some "" /\
    forall k, k <> s -> snd (fst (Client.handleComment e t s d)) k = t k.
Proof.
  unfold Client.handleComment, Client.trimmed.
  destruct (t s) as [text|] eqn:Ht; simpl; [|discriminate].
  destruct (Js.truthy (Js.trim text)) eqn:Htr; simpl; [|discriminate].
  destruct (Client.comment_user e) as [u|]; [|discriminate].
  unfold insert_comment, request.
  destruct (Client.comment_fault e); [discriminate|].
  destruct (negb (suggestion_exists s d)); [discriminate|].
  intros _. exists (Js.trim text), u. simpl.
  repeat split.
  - intros E. rewrite E in Htr. discriminate.
  - apply trim_ends.
  - unfold Client.set_text. now rewrite N.eqb_refl.
  - intros k Hk. unfold Client.set_text. apply N.eqb_neq in Hk.
    now rewrite Hk.
Qed.

Lemma stored_comment_witness :
  exists content u,
    option_map Js.trim (Scenario.typed " Count me in " 0%N) = Some content /\
    Client.comment_user (Scenario.commenter (Some 101%N) 50) = Some u /\
    content <> "" /\
    is_whitespace_free_at_ends content /\
    event_comments
      (fst (fst (Client.handleComment (Scenario.commenter (Some 101%N) 50)
                   (Scenario.typed " Count me in ") 0 Scenario.suggested))) =
      event_comments Scenario.suggested ++
      [{| cm_id := next_uuid Scenario.suggested; cm_suggestion_id := 0;
          cm_commenter_id := u; cm_content := content;
          cm_created_at :=
            Client.comment_now (Scenario.commenter (Some 101%N) 50) |}] /\
    event_suggestions
      (fst (fst (Client.handleComment (Scenario.commenter (Some 101%N) 50)
                   (Scenario.typed " Count me in ") 0 Scenario.suggested))) =
      event_suggestions Scenario.suggested /\
    event_votes
      (fst (fst (Client.handleComment (Scenario.commenter (Some 101%N) 50)
                   (Scenario.typed " Count me in ") 0 Scenario.suggested))) =
      event_votes Scenario.suggested /\
    events
      (fst (fst (Client.handleComment (Scenario.commenter (Some 101%N) 50)
                   (Scenario.typed " Count me in ") 0 Scenario.suggested))) =
      events Scenario.suggested /\
    snd (fst (Client.handleComment (Scenario.commenter (Some 101%N) 50)
                (Scenario.typed " Count me in ") 0 Scenario.suggested)) 0%N =
      Some "" /\
    forall k, k <> 0%N ->
      snd (fst (Client.handleComment (Scenario.commenter (Some 101%N) 50)
                  (Scenario.typed " Count me in ") 0 Scenario.suggested)) k =
      Scenario.typed " Count me in " k.
Proof.
  apply (stored_comment_is_trimmed (Scenario.commenter (Some 101%N) 50)
           (Scenario.typed " Count me in ") 0%N Scenario.suggested).
  vm_compute. reflexivity.
Defined.

(** The tables a visitor's action leaves alone or only appends to. *)
Lemma visitor_step o d :
  by_visitor o = true ->
  prefix_of (event_comments d) (event_comments (System.step o d)) /\
  prefix_of (event_suggestions d) (event_suggestions (System.step o d)) /\
  events (System.step o d) = events d.
Proof.
  assert (forall A (l : list A), prefix_of l l) as Hrefl
    by (intros A l; exists []; now rewrite app_nil_r).
  destruct o; simpl; try discriminate; intros _.
  - unfold Client.handleVote.
    destruct (Client.vote_user e) as [u|]; [|simpl; auto].
    destruct (select_votes _ suggestionId u d) as [err|existing]; [simpl; auto|].
    destruct (0 <? List.length existing)%nat.
    + unfold delete_vote, request. destruct (Client.delete_fault e); simpl; auto.
    + unfold insert_vote, request. destruct (Client.insert_fault e);
        [simpl; auto|].
      destruct (negb (suggestion_exists suggestionId d)); [simpl; auto|].
      destruct (existsb _ _); simpl; auto.
  - unfold Client.handleComment.
    destruct (Client.trimmed commentText suggestionId) as [content|];
      [|simpl; auto].
    destruct (negb (Js.truthy content)); [simpl; auto|].
    destruct (Client.comment_user e) as [u|]; [|simpl; auto].
    unfold insert_comment, request.
    destruct (Client.comment_fault e); [simpl; auto|].
    destruct (negb (suggestion_exists suggestionId d)); [simpl; auto|].
    simpl. repeat split; auto. eexists. reflexivity.
  - unfold Client.handleSubmit, insert_suggestion, request.
    destruct (Client.submit_fault e); simpl; [auto|].
    repeat split; auto. eexists. reflexivity.
Qed.

(** X10. Visitors only ever add: whatever votes, comments and suggestions
    are cast, written and submitted from the pages, the comments and the
    suggestions that were stored are still there, unchanged and in place,
    as the first rows of their tables, and no event is created or
    removed. *)
Theorem visitors_only_append (ops : list System.operation) (d : db) :
  forallb by_visitor ops = true ->
  prefix_of (event_comments d) (event_comments (System.run ops d)) /\
  prefix_of (event_suggestions d) (event_suggestions (System.run ops d)) /\
  events (System.run ops d) = events d.
Proof.
  revert d. induction ops as [|o ops IH]; intros d Hv; simpl.
  - repeat split; try (exists []; now rewrite app_nil_r).
  - simpl in Hv. apply andb_true_iff in Hv. destruct Hv as [Ho Hops].
    destruct (visitor_step o d Ho) as ([c1 Hc1] & [s1 Hs1] & He1).
    destruct (IH (System.step o d) Hops) as ([c2 Hc2] & [s2 Hs2] & He2).
    repeat split.
    + exists (c1 ++ c2). rewrite Hc2, Hc1. now rewrite app_assoc.
    + exists (s1 ++ s2). rewrite Hs2, Hs1. now rewrite app_assoc.
    + congruence.
Qed.

Lemma visitors_only_append_witness :
  prefix_of (event_comments Scenario.suggested)
    (event_comments
       (System.run
          [System.AddComment (Scenario.commenter (Some 101%N) 70)
             (Scenario.typed "second thought") 0;
           System.CastVote (Scenario.voter 101 31) 0]
          Scenario.suggested)) /\
  prefix_of (event_suggestions Scenario.suggested)
    (event_suggestions
       (System.run
          [System.AddComment (Scenario.commenter (Some 101%N) 70)
             (Scenario.typed "second thought") 0;
           System.CastVote (Scenario.voter 101 31) 0]
          Scenario.suggested)) /\
  events
    (System.run
       [System.AddComment (Scenario.commenter (Some 101%N) 70)
          (Scenario.typed "second thought") 0;
        System.CastVote (Scenario.voter 101 31) 0]
       Scenario.suggested) = events Scenario.suggested.
Proof.
  apply (visitors_only_append
           [System.AddComment (Scenario.commenter (Some 101%N) 70)
              (Scenario.typed "second thought") 0;
            System.CastVote (Scenario.voter 101 31) 0]
           Scenario.suggested).
  reflexivity.
Defined.

(** X11. A submitted suggestion whose insert is served is accepted with or
    without a signed-in user, and shows up in the feed as the form had it
    (an empty location as no location, [created_by] the user or nothing),
    with no vote and no comment. *)
Theorem submitted_suggestion_in_feed (e : Client.submit_env)
    (f : Client.suggest_form) (d : db) :
  Client.submit_fault e = None ->
  consistent d ->
  snd (Client.handleSubmit e f d) = Client.ToastThanks "Suggestion submitted." /\
  exists S,
    In S (feed (fst (Client.handleSubmit e f d))) /\
    row (Client.fetched S) =
      {| sg_id := next_uuid d;
         sg_title := Client.form_title f;
         sg_description := Some (Client.form_description f);
         sg_location := Js.or_null (Client.form_location f);
         sg_proposed_date := Client.form_date f;
         sg_created_by := Client.submit_user e;
         sg_created_at := Client.submit_now e |} /\
    Client.vote_count S = 0%nat /\
    Client.comments S = [].
Proof.
  intros Hf [[Hv Hc] Hfresh].
  unfold Client.handleSubmit, insert_suggestion, request. rewrite Hf.
  cbn [fst snd]. split; [reflexivity|].
  match goal with |- context [feed ?x] => set (d' := x) end.
  match goal with |- context [row (Client.fetched _) = ?r] => set (new := r) end.
  assert (forall i, suggestion_exists i d = true -> (i =? next_uuid d)%N = false)
    as Hne.
  { intros i Hi. apply suggestion_exists_iff in Hi.
    destruct Hi as (s & Hs & <-). apply N.eqb_neq.
    specialize (Hfresh s Hs). lia. }
  exists (Client.mapped (with_votes_and_comments d' new)).
  split; [|split; [reflexivity|split]].
  - unfold feed, Client.fetchSuggestions, select_suggestions_feed, request.
    cbn [fst]. apply in_map, in_map, In_sort_by. unfold d'. simpl.
    apply in_or_app. right. now left.
  - unfold Client.mapped, Client.votes_length, with_votes_and_comments,
      vote_ids_of. cbn. rewrite length_map.
    rewrite (proj2 (filter_nil_iff _ (event_votes d))); [reflexivity|].
    intros v Hin. apply Hne, Hv, Hin.
  - unfold Client.mapped, with_votes_and_comments, comments_of. cbn.
    rewrite (proj2 (filter_nil_iff _ (event_comments d))); [reflexivity|].
    intros c Hin. apply Hne, Hc, Hin.
Qed.

Lemma submitted_suggestion_witness :
  snd (Client.handleSubmit (Scenario.author None 60) Scenario.career_fair
         Scenario.portal) = Client.ToastThanks "Suggestion submitted." /\
  exists S,
    In S (feed (fst (Client.handleSubmit (Scenario.author None 60)
                       Scenario.career_fair Scenario.portal))) /\
    row (Client.fetched S) =
      {| sg_id := next_uuid Scenario.portal;
         sg_title := Client.form_title Scenario.career_fair;
         sg_description := Some (Client.form_description Scenario.career_fair);
         sg_location := Js.or_null (Client.form_location Scenario.career_fair);
         sg_proposed_date := Client.form_date Scenario.career_fair;
         sg_created_by := Client.submit_user (Scenario.author None 60);
         sg_created_at := Client.submit_now (Scenario.author None 60) |} /\
    Client.vote_count S = 0%nat /\
    Client.comments S = [].
Proof.
  apply (submitted_suggestion_in_feed (Scenario.author None 60)
           Scenario.career_fair Scenario.portal).
  - reflexivity.
  - unfold Scenario.portal. apply (run_preserves consistent serve_consistent).
    unfold Scenario.suggested. apply (run_preserves consistent serve_consistent).
    apply empty_consistent.
Defined.

End CommentsAndSuggestions.

(** ** Further properties of the promotion job *)

Section PromotionEdges.
Import Storage Spec Vocabulary.



Lemma cleanup_retired w i d :
  Job.delete_suggestion_fault w i = None -> retired i (Job.cleanup w i d).
Proof.
  intros H.
  unfold retired, suggestions_with, votes_with, comments_with, Job.cleanup,
    Job.unchecked, delete_votes_of, delete_comments_of, delete_suggestion,
    request. rewrite H.
  destruct (Job.delete_votes_fault w i), (Job.delete_comments_fault w i);
    simpl; repeat split; apply filter_none; intros x Hx; now rewrite Hx.
Qed.

Lemma promote_loop_retired w cands d acc i :
  In i (map sid (filter (inserted w) cands)) ->
  Job.delete_suggestion_fault w i = None ->
  retired i (fst (Job.promote_loop w cands d acc)).
Proof.
  revert d acc. induction cands as [|s rest IH]; intros d acc Hi Hdel.
  - destruct Hi.
  - rewrite promote_loop_cons. simpl in Hi. destruct (inserted w s).
    + destruct (in_dec N.eq_dec i (map sid (filter (inserted w) rest)))
        as [Hin|Hout].
      * now apply IH.
      * destruct Hi as [Hi|Hi]; [|contradiction]. subst i.
        destruct (promote_loop_untouched w rest
                    (Job.cleanup w (sid s) (with_event w s d))
                    (acc ++ [sid s]) (sid s) Hout) as (Es & Ev & Ec).
        destruct (cleanup_retired w (sid s) (with_event w s d) Hdel)
          as (Rs & Rv & Rc).
        unfold retired, suggestions_with, votes_with, comments_with in *.
        rewrite Es, Ev, Ec. auto.
    + now apply IH.
Qed.

(** X13. A reported suggestion whose own delete is served is retired
    altogether: it has no row left among the suggestions, the votes or the
    comments, also when the two deletes of its votes and comments failed
    (they go with the suggestion). *)
Theorem promoted_rows_retired (e : Job.env) (w : Job.world) (d : db)
    (i : uuid) :
  In i (Job.reported (snd (Job.handler e w d))) ->
  Job.delete_suggestion_fault w i = None ->
  retired i (fst (Job.handler e w d)).
Proof.
  destruct (Js.truthy_opt (Job.SUPABASE_SERVICE_ROLE_KEY e)) eqn:Hk;
    [destruct (Job.fetch_fault w) eqn:Hf|].
  - destruct (handler_not_served e w d) as (_ & _ & R); [right; congruence|].
    rewrite R. intros [].
  - rewrite (handler_served e w d Hk Hf). cbn [fst snd Job.reported Job.body].
    apply promote_loop_retired.
  - destruct (handler_not_served e w d) as (_ & _ & R); [left; exact Hk|].
    rewrite R. intros [].
Qed.

Lemma promoted_rows_retired_witness :
  retired 0
    (fst (Job.handler Scenario.with_key Scenario2.only_suggestion_delete
            Scenario.portal)).
Proof.
  apply (promoted_rows_retired Scenario.with_key Scenario2.only_suggestion_delete
           Scenario.portal 0%N).
  - vm_compute. left. reflexivity.
  - reflexivity.
Defined.

(** X14. The job never touches a suggestion below the threshold: whatever
    the faults of the run, such a suggestion stays stored with the same
    votes and comments, and is not reported. *)
Theorem below_threshold_untouched (e : Job.env) (w : Job.world) (d : db)
    (s : event_suggestion) :
  In s (event_suggestions d) ->
  Js.length_ge (voteCount (sg_id s) d) (Job.VOTE_THRESHOLD e) = false ->
  In s (event_suggestions (fst (Job.handler e w d))) /\
  same_rows (sg_id s) d (fst (Job.handler e w d)) /\
  ~ In (sg_id s) (Job.reported (snd (Job.handler e w d))).
Proof.
  intros Hs Hq.
  destruct (Js.truthy_opt (Job.SUPABASE_SERVICE_ROLE_KEY e)) eqn:Hk;
    [destruct (Job.fetch_fault w) eqn:Hf|].
  - destruct (handler_not_served e w d) as (E & _ & R); [right; congruence|].
    rewrite E, R. repeat split; auto.
  - assert (~ In (sg_id s) (Job.reported (snd (Job.handler e w d)))) as Hout.
    { rewrite (reported_iff e w d (sg_id s) Hk Hf). intros (_ & H & _).
      congruence. }
    assert (same_rows (sg_id s) d (fst (Job.handler e w d))) as Hsame.
    { rewrite (handler_served e w d Hk Hf) in *.
      cbn [fst snd Job.reported Job.body] in *.
      now apply promote_loop_untouched. }
    split; [|split; assumption].
    destruct Hsame as (E & _ & _).
    assert (In s (filter (fun x => (sg_id x =? sg_id s)%N)
                         (event_suggestions d))) as H
      by (apply filter_In; split; [assumption | apply N.eqb_refl]).
    rewrite <- E in H. now apply filter_In in H.
  - destruct (handler_not_served e w d) as (E & _ & R); [left; exact Hk|].
    rewrite E, R. repeat split; auto.
Qed.

Lemma below_threshold_witness :
  In Scenario.career_fair_row
     (event_suggestions
        (fst (Job.handler Scenario.with_key Scenario.calm Scenario.portal))) /\
  same_rows (sg_id Scenario.career_fair_row) Scenario.portal
    (fst (Job.handler Scenario.with_key Scenario.calm Scenario.portal)) /\
  ~ In (sg_id Scenario.career_fair_row)
       (Job.reported
          (snd (Job.handler Scenario.with_key Scenario.calm Scenario.portal))).
Proof.
  apply (below_threshold_untouched Scenario.with_key Scenario.calm
           Scenario.portal Scenario.career_fair_row).
  - vm_compute. right. left. reflexivity.
  - vm_compute. reflexivity.
Defined.

(** X15. A threshold that is not a number (for instance
    [EVENT_PROMOTE_THRESHOLD=five]) switches promotion off: no run changes
    a table or reports an id, however many votes there are. *)
Theorem unreadable_threshold_promotes_nothing (e : Job.env) (w : Job.world)
    (d : db) :
  Job.VOTE_THRESHOLD e = Js.NaN ->
  fst (Job.handler e w d) = d /\
  Job.reported (snd (Job.handler e w d)) = [].
Proof.
  intros HT.
  destruct (Js.truthy_opt (Job.SUPABASE_SERVICE_ROLE_KEY e)) eqn:Hk;
    [destruct (Job.fetch_fault w) eqn:Hf|].
  - destruct (handler_not_served e w d) as (E & _ & R); [right; congruence|].
    auto.
  - rewrite (handler_served e w d Hk Hf).
    assert (candidates e d = []) as ->.
    { unfold candidates, Job.toPromote. rewrite HT.
      apply filter_nil_iff. reflexivity. }
    auto.
  - destruct (handler_not_served e w d) as (E & _ & R); [left; exact Hk|].
    auto.
Qed.

Lemma unreadable_threshold_witness :
  fst (Job.handler (Scenario2.threshold "five") Scenario.calm Scenario.portal) =
    Scenario.portal /\
  Job.reported
    (snd (Job.handler (Scenario2.threshold "five") Scenario.calm Scenario.portal))
    = [].
Proof.
  apply (unreadable_threshold_promotes_nothing (Scenario2.threshold "five")
           Scenario.calm Scenario.portal).
  vm_compute. reflexivity.
Defined.

(** X16. A threshold of zero or below promotes everything: every stored
    suggestion whose event insert is served is reported, votes or no
    votes. *)
Theorem nonpositive_threshold_promotes_all (e : Job.env) (w : Job.world)
    (d : db) (T : Z) (s : event_suggestion) :
  has_credential e ->
  threshold_is e T ->
  T <= 0 ->
  Job.fetch_fault w = None ->
  In s (event_suggestions d) ->
  Job.insert_fault w (sg_id s) = None ->
  In (sg_id s) (Job.reported (snd (Job.handler e w d))).
Proof.
  intros Hk HT Hle Hf Hs Hok.
  apply (reported_iff e w d (sg_id s) Hk Hf).
  split; [exists s; auto|]. split; [|assumption].
  apply (length_ge_threshold e T _ HT). lia.
Qed.

Lemma nonpositive_threshold_witness :
  In (sg_id Scenario.career_fair_row)
     (Job.reported
        (snd (Job.handler (Scenario2.threshold "0") Scenario.calm
                Scenario.suggested))).
Proof.
  apply (nonpositive_threshold_promotes_all (Scenario2.threshold "0")
           Scenario.calm Scenario.suggested 0 Scenario.career_fair_row).
  - reflexivity.
  - vm_compute. reflexivity.
  - lia.
  - reflexivity.
  - vm_compute. right. left. reflexivity.
  - reflexivity.
Defined.

End PromotionEdges.

(** ** The threshold *)

Section Threshold.
Import Storage Spec Vocabulary.

(** C3. With the threshold configured to the integer [T], a run that
    reaches the storage service promotes a suggestion whose event insert
    is served if and only if its vote count is at least [T]. The run
    appends one event per promoted suggestion, in order, each a copy of its
    suggestion, and reports their ids; the suggestion [s] is one of them
    exactly when it has [T] votes or more, and then it is retired with its
    votes and comments as soon as the delete of the suggestion is served.
    Below [T] it is not among them, is not reported and keeps all its
    rows. With exactly [T] votes it is promoted, with [T - 1] it is not. *)
Theorem threshold_boundary (e : Job.env) (w : Job.world) (d : db) (T : Z)
    (s : event_suggestion) :
  has_credential e ->
  threshold_is e T ->
  Job.fetch_fault w = None ->
  In s (event_suggestions d) ->
  Job.insert_fault w (sg_id s) = None ->
  exists (promoted : list event_suggestion) (created : list event),
    Job.reported (snd (Job.handler e w d)) = map sg_id promoted /\
    events (fst (Job.handler e w d)) = events d ++ created /\
    Forall2 copies promoted created /\
    (In s promoted <-> T <= Z.of_nat (voteCount (sg_id s) d)) /\
    (In (sg_id s) (Job.reported (snd (Job.handler e w d))) <->
     T <= Z.of_nat (voteCount (sg_id s) d)) /\
    (T <= Z.of_nat (voteCount (sg_id s) d) ->
     Job.delete_suggestion_fault w (sg_id s) = None ->
     retired (sg_id s) (fst (Job.handler e w d))) /\
    (Z.of_nat (voteCount (sg_id s) d) < T ->
     In s (event_suggestions (fst (Job.handler e w d))) /\
     same_rows (sg_id s) d (fst (Job.handler e w d))) /\
    (Z.of_nat (voteCount (sg_id s) d) = T -> In s promoted) /\
    (Z.of_nat (voteCount (sg_id s) d) = T - 1 -> ~ In s promoted).
Proof.
  intros Hk HT Hf Hs Hok.
  assert (In (sg_id s) (Job.reported (snd (Job.handler e w d))) <->
          T <= Z.of_nat (voteCount (sg_id s) d)) as Hrep.
  { rewrite (reported_iff e w d (sg_id s) Hk Hf).
    rewrite (length_ge_threshold e T _ HT). split.
    - intros (_ & H & _). exact H.
    - intros H. split; [exists s; auto | auto]. }
  rewrite (handler_served e w d Hk Hf) in *.
  cbn [fst snd Job.reported Job.body] in *.
  destruct (promote_loop_events w (candidates e d) d []) as (created & E & F).
  exists (map row (filter (inserted w) (candidates e d))), created.
  assert (In s (map row (filter (inserted w) (candidates e d))) <->
          T <= Z.of_nat (voteCount (sg_id s) d)) as Hin.
  { rewrite <- (length_ge_threshold e T _ HT), in_map_iff. split.
    - intros (sd & <- & Hsd). apply filter_In in Hsd. destruct Hsd as [Hsd _].
      apply In_candidates in Hsd. destruct Hsd as (s0 & _ & -> & Hq).
      exact Hq.
    - intros Hq. exists (with_votes d s). split; [reflexivity|].
      apply filter_In. split.
      + apply In_candidates. exists s. auto.
      + unfold inserted, sid. cbn [row with_votes]. now rewrite Hok. }
  split; [now rewrite map_map|].
  split; [exact E|]. split; [exact F|]. split; [exact Hin|].
  split; [exact Hrep|]. split; [|split; [|split]].
  - intros Hle Hdel. apply promote_loop_retired; [|exact Hdel].
    now apply Hrep.
  - intros Hlt.
    assert (~ In (sg_id s) (map sid (filter (inserted w) (candidates e d))))
      as Hout by (rewrite Hrep; lia).
    pose proof (promote_loop_untouched w (candidates e d) d [] (sg_id s) Hout)
      as Hsame.
    split; [|exact Hsame].
    destruct Hsame as (Es & _ & _).
    assert (In s (filter (fun x => (sg_id x =? sg_id s)%N)
                         (event_suggestions d))) as H
      by (apply filter_In; split; [assumption | apply N.eqb_refl]).
    rewrite <- Es in H. now apply filter_In in H.
  - intros Heq. apply Hin. lia.
  - intros Heq H. apply Hin in H. lia.
Qed.

(** Default threshold 5: the reunion (5 votes) gets its event, is reported
    and retired; the career fair (4 votes) stays as it is. *)
Lemma threshold_boundary_witness :
  (exists promoted created,
     Job.reported
       (snd (Job.handler Scenario.with_key Scenario.calm Scenario.portal)) =
       map sg_id promoted /\
     events (fst (Job.handler Scenario.with_key Scenario.calm Scenario.portal)) =
       events Scenario.portal ++ created /\
     Forall2 copies promoted created /\
     In Scenario.reunion_row promoted) /\
  retired (sg_id Scenario.reunion_row)
    (fst (Job.handler Scenario.with_key Scenario.calm Scenario.portal)) /\
  In Scenario.career_fair_row
     (event_suggestions
        (fst (Job.handler Scenario.with_key Scenario.calm Scenario.portal))) /\
  same_rows (sg_id Scenario.career_fair_row) Scenario.portal
    (fst (Job.handler Scenario.with_key Scenario.calm Scenario.portal)).
Proof.
  destruct (threshold_boundary Scenario.with_key Scenario.calm Scenario.portal
              5 Scenario.reunion_row)
    as (promoted & created & R & E & F & Hin & _ & Hret & _ & Hat & _);
    [reflexivity | vm_compute; reflexivity | reflexivity
    | vm_compute; left; reflexivity | reflexivity |].
  destruct (threshold_boundary Scenario.with_key Scenario.calm Scenario.portal
              5 Scenario.career_fair_row)
    as (_ & _ & _ & _ & _ & _ & _ & _ & Hbelow & _ & _);
    [reflexivity | vm_compute; reflexivity | reflexivity
    | vm_compute; right; left; reflexivity | reflexivity |].
  split; [|split].
  - exists promoted, created. repeat split; try assumption.
    apply Hat. vm_compute. reflexivity.
  - apply Hret; [vm_compute; discriminate | reflexivity].
  - apply Hbelow. vm_compute. reflexivity.
Defined.

End Threshold.

(** ** What a failing cleanup leaves behind *)

Section FailedCleanup.
Import Storage Spec Vocabulary.

Lemma cleanup_fails_same w i d :
  cleanup_fails w -> Job.cleanup w i d = d.
Proof.
  intros H. destruct (H i) as (Hv & Hc & Hs).
  unfold Job.cleanup, delete_votes_of, delete_comments_of, delete_suggestion,
    request.
  destruct (Job.delete_votes_fault w i); [|congruence].
  destruct (Job.delete_comments_fault w i); [|congruence].
  destruct (Job.delete_suggestion_fault w i); [|congruence].
  reflexivity.
Qed.

Lemma promote_loop_tables_kept w cands d acc :
  cleanup_fails w ->
  event_suggestions (fst (Job.promote_loop w cands d acc)) = event_suggestions d /\
  event_votes (fst (Job.promote_loop w cands d acc)) = event_votes d /\
  event_comments (fst (Job.promote_loop w cands d acc)) = event_comments d.
Proof.
  intros H. revert d acc. induction cands as [|s rest IH]; intros d acc.
  - auto.
  - rewrite promote_loop_cons. destruct (inserted w s); [|apply IH].
    rewrite (cleanup_fails_same w (sid s) _ H).
    destruct (IH (with_event w s d) (acc ++ [sid s])) as (A & B & C).
    rewrite A, B, C. auto.
Qed.

(** The candidates depend on the suggestions and the votes only. *)
Lemma candidates_same e d d' :
  event_suggestions d' = event_suggestions d ->
  event_votes d' = event_votes d ->
  candidates e d' = candidates e d.
Proof.
  intros Es Ev. unfold candidates. rewrite Es. f_equal.
  apply map_ext. intros s. unfold with_votes, vote_ids_of. now rewrite Ev.
Qed.

Lemma promote_loop_events_length w cands d acc :
  List.length (events (fst (Job.promote_loop w cands d acc))) =
  (List.length (events d) +
   List.length (map sid (filter (inserted w) cands)))%nat.
Proof.
  destruct (promote_loop_events w cands d acc) as (evs & E & F).
  rewrite E, length_app, <- (Forall2_length F), !length_map. reflexivity.
Qed.

(** X17. No protection against double events: when every cleanup delete
    of a run fails, the suggestions, votes and comments are all still
    there, and the next run whose event inserts fare the same reports the
    same suggestions again, leaving two events for each of them. *)
Theorem failed_cleanup_promotes_twice (e : Job.env) (w1 w2 : Job.world)
    (d : db) :
  has_credential e ->
  Job.fetch_fault w1 = None ->
  Job.fetch_fault w2 = None ->
  cleanup_fails w1 ->
  (forall i, Job.insert_fault w2 i = Job.insert_fault w1 i) ->
  event_suggestions (fst (Job.handler e w1 d)) = event_suggestions d /\
  event_votes (fst (Job.handler e w1 d)) = event_votes d /\
  event_comments (fst (Job.handler e w1 d)) = event_comments d /\
  Job.reported (snd (Job.handler e w2 (fst (Job.handler e w1 d)))) =
    Job.reported (snd (Job.handler e w1 d)) /\
  List.length (events (fst (Job.handler e w2 (fst (Job.handler e w1 d))))) =
    (List.length (events d) +
     2 * List.length (Job.reported (snd (Job.handler e w1 d))))%nat.
Proof.
  intros Hk Hf1 Hf2 Hfail Hsame.
  rewrite (handler_served e w1 d Hk Hf1). cbn [fst snd Job.reported Job.body].
  set (d1 := fst (Job.promote_loop w1 (candidates e d) d [])).
  destruct (promote_loop_tables_kept w1 (candidates e d) d [] Hfail)
    as (Es & Ev & Ec).
  fold d1 in Es, Ev, Ec.
  rewrite (handler_served e w2 d1 Hk Hf2). cbn [fst snd Job.reported Job.body].
  rewrite (candidates_same e d d1 Es Ev).
  assert (filter (inserted w2) (candidates e d) =
          filter (inserted w1) (candidates e d)) as Efil.
  { apply filter_ext. intros sd. unfold inserted. now rewrite Hsame. }
  repeat split; try assumption.
  - now rewrite Efil.
  - rewrite promote_loop_events_length, Efil. unfold d1.
    rewrite promote_loop_events_length. lia.
Qed.

Lemma failed_cleanup_witness :
  event_suggestions
    (fst (Job.handler Scenario.with_key Scenario.cleanup_fails Scenario.portal)) =
    event_suggestions Scenario.portal /\
  event_votes
    (fst (Job.handler Scenario.with_key Scenario.cleanup_fails Scenario.portal)) =
    event_votes Scenario.portal /\
  event_comments
    (fst (Job.handler Scenario.with_key Scenario.cleanup_fails Scenario.portal)) =
    event_comments Scenario.portal /\
  Job.reported
    (snd (Job.handler Scenario.with_key Scenario.calm
            (fst (Job.handler Scenario.with_key Scenario.cleanup_fails
                    Scenario.portal)))) =
    Job.reported
      (snd (Job.handler Scenario.with_key Scenario.cleanup_fails Scenario.portal)) /\
  List.length
    (events
       (fst (Job.handler Scenario.with_key Scenario.calm
               (fst (Job.handler Scenario.with_key Scenario.cleanup_fails
                       Scenario.portal))))) =
    (List.length (events Scenario.portal) +
     2 * List.length
           (Job.reported
              (snd (Job.handler Scenario.with_key Scenario.cleanup_fails
                      Scenario.portal))))%nat.
Proof.
  apply (failed_cleanup_promotes_twice Scenario.with_key Scenario.cleanup_fails
           Scenario.calm Scenario.portal).
  - reflexivity.
  - reflexivity.
  - reflexivity.
  - intros i. repeat split; discriminate.
  - intros i. reflexivity.
Defined.

Lemma cleanup_suggestions_kept w i j d :
  Job.delete_suggestion_fault w j <> None ->
  filter (fun s => (sg_id s =? j)%N) (event_suggestions (Job.cleanup w i d)) =
  filter (fun s => (sg_id s =? j)%N) (event_suggestions d).
Proof.
  intros Hfail. destruct (N.eq_dec j i) as [->|Hne].
  - unfold Job.cleanup, Job.unchecked, delete_votes_of, delete_comments_of,
      delete_suggestion, request.
    destruct (Job.delete_suggestion_fault w i); [|congruence].
    destruct (Job.delete_votes_fault w i), (Job.delete_comments_fault w i);
      reflexivity.
  - now destruct (cleanup_other w i j d Hne) as (E & _ & _).
Qed.

Lemma promote_loop_suggestion_kept w cands d acc j :
  Job.delete_suggestion_fault w j <> None ->
  filter (fun s => (sg_id s =? j)%N)
         (event_suggestions (fst (Job.promote_loop w cands d acc))) =
  filter (fun s => (sg_id s =? j)%N) (event_suggestions d).
Proof.
  intros Hfail. revert d acc. induction cands as [|s rest IH]; intros d acc.
  - reflexivity.
  - rewrite promote_loop_cons. destruct (inserted w s); [|apply IH].
    rewrite IH. now rewrite cleanup_suggestions_kept.
Qed.

Lemma cleanup_votes_deleted w i d :
  Job.delete_votes_fault w i = None ->
  filter (fun v => (vt_suggestion_id v =? i)%N)
         (event_votes (Job.cleanup w i d)) = [].
Proof.
  intros H.
  unfold Job.cleanup, Job.unchecked, delete_votes_of, delete_comments_of,
    delete_suggestion, request. rewrite H.
  destruct (Job.delete_comments_fault w i), (Job.delete_suggestion_fault w i);
    simpl; apply filter_none; intros x Hx; now rewrite Hx.
Qed.

Lemma promote_loop_votes_deleted w cands d acc i :
  In i (map sid (filter (inserted w) cands)) ->
  Job.delete_votes_fault w i = None ->
  filter (fun v => (vt_suggestion_id v =? i)%N)
         (event_votes (fst (Job.promote_loop w cands d acc))) = [].
Proof.
  revert d acc. induction cands as [|s rest IH]; intros d acc Hi Hdel.
  - destruct Hi.
  - rewrite promote_loop_cons. simpl in Hi. destruct (inserted w s).
    + destruct (in_dec N.eq_dec i (map sid (filter (inserted w) rest)))
        as [Hin|Hout].
      * now apply IH.
      * destruct Hi as [Hi|Hi]; [|contradiction]. subst i.
        destruct (promote_loop_untouched w rest
                    (Job.cleanup w (sid s) (with_event w s d))
                    (acc ++ [sid s]) (sid s) Hout) as (_ & Ev & _).
        rewrite Ev. now apply cleanup_votes_deleted.
    + now apply IH.
Qed.

(** X18. A promoted suggestion can be left behind without its votes: when
    its event insert and the delete of its votes are served but the delete
    of the suggestion itself fails, the suggestion is reported, stays
    stored with a vote count of 0, and (the threshold being at least 1) no
    later run reports it again until it has been voted up anew. *)
Theorem half_cleaned_suggestion_is_stuck (e : Job.env) (w w2 : Job.world)
    (d : db) (T : Z) (s : event_suggestion) :
  has_credential e ->
  threshold_is e T ->
  1 <= T ->
  Job.fetch_fault w = None ->
  In s (event_suggestions d) ->
  Js.length_ge (voteCount (sg_id s) d) (Job.VOTE_THRESHOLD e) = true ->
  Job.insert_fault w (sg_id s) = None ->
  Job.delete_votes_fault w (sg_id s) = None ->
  Job.delete_suggestion_fault w (sg_id s) <> None ->
  In (sg_id s) (Job.reported (snd (Job.handler e w d))) /\
  In s (event_suggestions (fst (Job.handler e w d))) /\
  voteCount (sg_id s) (fst (Job.handler e w d)) = 0%nat /\
  ~ In (sg_id s)
       (Job.reported (snd (Job.handler e w2 (fst (Job.handler e w d))))).
Proof.
  intros Hk HT HT1 Hf Hs Hq Hins Hdv Hds.
  assert (In (sg_id s) (Job.reported (snd (Job.handler e w d)))) as Hrep.
  { apply (reported_iff e w d (sg_id s) Hk Hf).
    split; [exists s; auto | auto]. }
  assert (voteCount (sg_id s) (fst (Job.handler e w d)) = 0%nat) as Hzero.
  { rewrite (handler_served e w d Hk Hf) in *.
    cbn [fst snd Job.reported Job.body] in *.
    unfold voteCount, votes_with.
    now rewrite (promote_loop_votes_deleted w _ d [] (sg_id s) Hrep Hdv). }
  split; [exact Hrep|]. split; [|split; [exact Hzero|]].
  - rewrite (handler_served e w d Hk Hf). cbn [fst].
    assert (In s (filter (fun x => (sg_id x =? sg_id s)%N)
                         (event_suggestions d))) as H
      by (apply filter_In; split; [assumption | apply N.eqb_refl]).
    rewrite <- (promote_loop_suggestion_kept w (candidates e d) d [] (sg_id s) Hds)
      in H.
    now apply filter_In in H.
  - destruct (Job.fetch_fault w2) eqn:Hf2.
    + destruct (handler_not_served e w2 (fst (Job.handler e w d)))
        as (_ & _ & R); [right; congruence|].
      rewrite R. intros [].
    + rewrite (reported_iff e w2 _ (sg_id s) Hk Hf2). intros (_ & H & _).
      rewrite Hzero in H. apply (length_ge_threshold e T _ HT) in H.
      simpl in H. lia.
Qed.

Lemma half_cleaned_witness :
  In (sg_id Scenario.reunion_row)
     (Job.reported
        (snd (Job.handler Scenario.with_key Scenario2.suggestion_delete_fails
                Scenario.portal))) /\
  In Scenario.reunion_row
     (event_suggestions
        (fst (Job.handler Scenario.with_key Scenario2.suggestion_delete_fails
                Scenario.portal))) /\
  voteCount (sg_id Scenario.reunion_row)
    (fst (Job.handler Scenario.with_key Scenario2.suggestion_delete_fails
            Scenario.portal)) = 0%nat /\
  ~ In (sg_id Scenario.reunion_row)
       (Job.reported
          (snd (Job.handler Scenario.with_key Scenario.calm
                  (fst (Job.handler Scenario.with_key
                          Scenario2.suggestion_delete_fails Scenario.portal))))).
Proof.
  apply (half_cleaned_suggestion_is_stuck Scenario.with_key
           Scenario2.suggestion_delete_fails Scenario.calm Scenario.portal 5
           Scenario.reunion_row).
  - reflexivity.
  - vm_compute. reflexivity.
  - lia.
  - reflexivity.
  - vm_compute. left. reflexivity.
  - vm_compute. reflexivity.
  - reflexivity.
  - reflexivity.
  - discriminate.
Defined.

End FailedCleanup.

(** ** The events page *)

Section EventsPageProperties.
Import Storage Spec Vocabulary.

Lemma Forall2_In_left {A B : Type} (R : A -> B -> Prop) l l' x :
  Forall2 R l l' -> In x l -> exists y, In y l' /\ R x y.
Proof.
  induction 1 as [|a b l l' Hab F IH]; intros Hx; [destruct Hx|].
  destruct Hx as [<-|Hx].
  - exists b. split; [now left | exact Hab].
  - destruct (IH Hx) as (y & Hy & Hxy). exists y. split; [now right | exact Hxy].
Qed.

Example events_page_of_three :
  fst (EventsPage.fetchEvents None
         {| event_suggestions := []; event_votes := []; event_comments := [];
            events := [Scenario2.meetup; Scenario2.seminar; Scenario2.picnic];
            next_uuid := 40 |} []) =
    [Scenario2.picnic; Scenario2.seminar; Scenario2.meetup] /\
  map (fun ev => EventsPage.badge (EventsPage.render_card Scenario2.browser ev))
      [Scenario2.picnic; Scenario2.seminar; Scenario2.meetup] =
    ["Past"; "Upcoming"; "Past"].
Proof. vm_compute. repeat split. Qed.

(** X20. A stored suggestion without proposed date that a run promotes
    (it reaches the threshold and its event insert is served) ends as an
    event the run has appended, a copy of that very suggestion with no
    date; the events page lists it and shows it, whatever the clock of the
    browser reads at each of its calls, as "Past", dated "TBA", with the
    disabled button "View Details". *)
Theorem undated_promotion_shows_past (e : Job.env) (w : Job.world) (d : db)
    (s : event_suggestion) (current : list event) :
  has_credential e ->
  Job.fetch_fault w = None ->
  In s (event_suggestions d) ->
  Js.length_ge (voteCount (sg_id s) d) (Job.VOTE_THRESHOLD e) = true ->
  Job.insert_fault w (sg_id s) = None ->
  sg_proposed_date s = None ->
  exists (created : list event) (ev : event),
    events (fst (Job.handler e w d)) = events d ++ created /\
    In ev created /\
    copies s ev /\
    In ev (fst (EventsPage.fetchEvents None (fst (Job.handler e w d)) current)) /\
    forall r : EventsPage.readings,
      EventsPage.render_card r ev =
      {| EventsPage.card_title := sg_title s;
         EventsPage.badge_variant := "secondary";
         EventsPage.badge := "Past";
         EventsPage.date_line := EventsPage.TBA;
         EventsPage.place :=
           match sg_location s with
           | Some l => if Js.truthy l then Some l else None
           | None => None
           end;
         EventsPage.button_variant := "outline";
         EventsPage.disabled := true;
         EventsPage.action := "View Details" |}.
Proof.
  intros Hk Hf Hs Hq Hok Hnone.
  rewrite (handler_served e w d Hk Hf). cbn [fst].
  destruct (promote_loop_events w (candidates e d) d []) as (created & E & F).
  assert (In s (map row (filter (inserted w) (candidates e d)))) as Hin.
  { apply in_map_iff. exists (with_votes d s). split; [reflexivity|].
    apply filter_In. split.
    - apply In_candidates. exists s. auto.
    - unfold inserted, sid. cbn [row with_votes]. now rewrite Hok. }
  destruct (Forall2_In_left _ _ _ _ F Hin) as (ev & Hev & Hc).
  exists created, ev. split; [exact E|]. split; [exact Hev|].
  split; [exact Hc|]. split.
  - unfold EventsPage.fetchEvents, EventsPage.select_events, request.
    cbn [fst]. apply In_sort_by. rewrite E. apply in_or_app. now right.
  - intros r. destruct Hc as (Ht & _ & Hl & Hd & _).
    unfold EventsPage.render_card, EventsPage.call, EventsPage.isUpcoming,
      EventsPage.formatDate. rewrite Hd, Hnone, Ht, Hl. reflexivity.
Qed.

Lemma undated_promotion_witness :
  exists (created : list event) (ev : event),
    events (fst (Job.handler Scenario.with_key Scenario.calm Scenario2.undated)) =
      events Scenario2.undated ++ created /\
    In ev created /\
    copies Scenario.career_fair_row ev /\
    In ev (fst (EventsPage.fetchEvents None
                  (fst (Job.handler Scenario.with_key Scenario.calm
                          Scenario2.undated)) [])) /\
    forall r : EventsPage.readings,
      EventsPage.render_card r ev =
      {| EventsPage.card_title := sg_title Scenario.career_fair_row;
         EventsPage.badge_variant := "secondary";
         EventsPage.badge := "Past";
         EventsPage.date_line := EventsPage.TBA;
         EventsPage.place :=
           match sg_location Scenario.career_fair_row with
           | Some l => if Js.truthy l then Some l else None
           | None => None
           end;
         EventsPage.button_variant := "outline";
         EventsPage.disabled := true;
         EventsPage.action := "View Details" |}.
Proof.
  apply (undated_promotion_shows_past Scenario.with_key Scenario.calm
           Scenario2.undated Scenario.career_fair_row []).
  - reflexivity.
  - reflexivity.
  - vm_compute. right. left. reflexivity.
  - vm_compute. reflexivity.
  - reflexivity.
  - reflexivity.
Defined.

End EventsPageProperties.

(** ** The alumni directory *)

Section DirectoryProperties.
Import Vocabulary.

Lemma truthy_iff s : Js.truthy s = true <-> s <> "".
Proof. destruct s; simpl; split; congruence. Qed.

Lemma field_is_iff f sel :
  Directory.field_is f sel = true <-> f = Some sel.
Proof.
  unfold Directory.field_is. destruct f as [x|].
  - rewrite String.eqb_eq. split; congruence.
  - split; discriminate.
Qed.

Lemma year_is_iff y sel :
  Directory.year_is y sel = true <->
  exists n, y = Some n /\ JsText.toString n = sel.
Proof.
  unfold Directory.year_is. destruct y as [n|].
  - rewrite String.eqb_eq. split.
    + intros H. exists n. auto.
    + intros (m & E & H). now injection E as <-.
  - split; [discriminate | intros (n & E & _); discriminate].
Qed.

Lemma filter_filter {A : Type} (p q : A -> bool) l :
  filter p (filter q l) = filter (fun x => q x && p x) l.
Proof.
  induction l as [|a l IH]; [reflexivity|]. simpl.
  destruct (q a); simpl; [destruct (p a)|]; now rewrite IH.
Qed.

Lemma cond_filter {A : Type} (b : bool) (p : A -> bool) l :
  (if b then filter p l else l) = filter (fun x => if b then p x else true) l.
Proof.
  destruct b; [reflexivity|].
  induction l as [|a l IH]; [reflexivity|]. simpl. now f_equal.
Qed.

Lemma filterProfiles_as_filter st :
  Directory.filterProfiles st = filter (selected st) (Directory.profiles st).
Proof.
  unfold Directory.filterProfiles.
  rewrite !cond_filter, !filter_filter. apply filter_ext.
  intros p. unfold selected. now rewrite !andb_assoc.
Qed.

(** X21. [filterProfiles] keeps, in the order they were fetched, exactly
    the profiles that meet every criterion that is set: the search term
    occurs in the name, company, job title or industry; industry and
    location are the selected ones; the graduation year prints as the
    selected year. With no criterion set (after [clearFilters]) it shows
    all of them. *)
Theorem filterProfiles_selects (st : Directory.state) :
  (forall p,
     In p (Directory.filterProfiles st) <->
     In p (Directory.profiles st) /\
     (Directory.searchTerm st <> "" ->
      Directory.matches_search (Directory.searchTerm st) p = true) /\
     (Directory.selectedIndustry st <> "" ->
      Directory.industry p = Some (Directory.selectedIndustry st)) /\
     (Directory.selectedYear st <> "" ->
      exists y, Directory.graduation_year p = Some y /\
                JsText.toString y = Directory.selectedYear st) /\
     (Directory.selectedLocation st <> "" ->
      Directory.location p = Some (Directory.selectedLocation st))) /\
  (exists keep,
     Directory.filterProfiles st = filter keep (Directory.profiles st)) /\
  Directory.filterProfiles (Directory.clearFilters st) = Directory.profiles st.
Proof.
  split; [|split].
  - intros p. rewrite filterProfiles_as_filter, filter_In. unfold selected.
    rewrite !andb_true_iff.
    assert (forall s (b : bool) (P : Prop),
              (b = true <-> P) ->
              ((if Js.truthy s then b else true) = true <-> (s <> "" -> P)))
      as Hcase.
    { intros s b P HbP. destruct s; simpl.
      - split; [congruence | reflexivity].
      - rewrite HbP. split; [auto | intros H; apply H; discriminate]. }
    rewrite (Hcase _ _ _ (iff_refl _)).
    rewrite (Hcase _ _ _ (field_is_iff _ _)).
    rewrite (Hcase _ _ _ (year_is_iff _ _)).
    rewrite (Hcase _ _ _ (field_is_iff _ _)).
    tauto.
  - exists (selected st). apply filterProfiles_as_filter.
  - reflexivity.
Qed.

Lemma starts_with_iff sub s :
  JsText.starts_with sub s = true <-> exists b, s = (sub ++ b)%string.
Proof.
  revert s. induction sub as [|a sub IH]; intros s; simpl.
  - split; [intros _; exists s; reflexivity | reflexivity].
  - destruct s as [|c s]; simpl.
    + split; [discriminate | intros (b & E); discriminate].
    + rewrite andb_true_iff, Ascii.eqb_eq, IH. split.
      * intros (-> & b & ->). exists b. reflexivity.
      * intros (b & E). injection E as -> ->. split; [reflexivity|].
        exists b. reflexivity.
Qed.

(** [includes] finds exactly the occurrences of [sub] in [s]. *)
Lemma includes_iff s sub :
  JsText.includes s sub = true <->
  exists a b, s = (a ++ sub ++ b)%string.
Proof.
  induction s as [|c s IH].
  - simpl. rewrite orb_false_r, starts_with_iff. split.
    + intros (b & E). exists "", b. exact E.
    + intros (a & b & E). destruct a; [exists b; exact E | discriminate].
  - cbn [JsText.includes]. rewrite orb_true_iff, starts_with_iff, IH. split.
    + intros [(b & E)|(a & b & E)].
      * exists "", b. exact E.
      * exists (String c a), b. simpl. now f_equal.
    + intros (a & b & E). destruct a as [|c' a].
      * left. exists b. exact E.
      * right. simpl in E. injection E as -> ->. exists a, b. reflexivity.
Qed.

Lemma toLowerCase_append a b :
  JsText.toLowerCase (a ++ b) =
  (JsText.toLowerCase a ++ JsText.toLowerCase b)%string.
Proof.
  induction a as [|c a IH]; [reflexivity|]. simpl. now f_equal.
Qed.

(** X22. For names and search terms written in characters below 256
    (Latin-1), the search box finds a profile by any part of its name,
    typed in any letter case: with no select set, a term that is not empty
    and equals, letter case aside, a piece of the full name keeps the
    profile in the list. *)
Theorem search_finds_by_name (st : Directory.state)
    (p : Directory.AlumniProfile) (term before piece after : string) :
  In p (Directory.profiles st) ->
  Directory.selectedIndustry st = "" ->
  Directory.selectedYear st = "" ->
  Directory.selectedLocation st = "" ->
  term <> "" ->
  Directory.full_name p = (before ++ piece ++ after)%string ->
  JsText.toLowerCase piece = JsText.toLowerCase term ->
  In p (Directory.filterProfiles (Directory.setSearchTerm term st)).
Proof.
  intros Hp Hi Hy Hl Ht Hname Hcase.
  rewrite filterProfiles_as_filter. apply filter_In. split; [exact Hp|].
  unfold selected. cbn [Directory.setSearchTerm Directory.searchTerm
    Directory.selectedIndustry Directory.selectedYear
    Directory.selectedLocation]. rewrite Hi, Hy, Hl. simpl.
  apply truthy_iff in Ht. rewrite Ht, !andb_true_r.
  unfold Directory.matches_search. apply orb_true_iff. left.
  apply orb_true_iff. left. apply orb_true_iff. left.
  apply includes_iff.
  exists (JsText.toLowerCase before), (JsText.toLowerCase after).
  now rewrite Hname, !toLowerCase_append, Hcase.
Qed.

Lemma search_finds_by_name_witness :
  In Scenario2.ayesha
     (Directory.filterProfiles
        (Directory.setSearchTerm "KHAN" Scenario2.directory)).
Proof.
  apply (search_finds_by_name Scenario2.directory Scenario2.ayesha
           "KHAN" "Ayesha " "Khan" "");
    try reflexivity.
  - left. reflexivity.
  - discriminate.
Defined.

End DirectoryProperties.

Section DirectoryOptions.
Import Vocabulary.

Lemma In_to_set {A : Type} (eqb : A -> A -> bool) l x :
  (forall a b, eqb a b = true <-> a = b) ->
  (In x (JsText.to_set eqb l) <-> In x l).
Proof.
  intros Heq. induction l as [|a l IH]; simpl; [reflexivity|].
  rewrite filter_In, IH, negb_true_iff. split.
  - intros [H|[H _]]; auto.
  - intros [H|H]; [now left|].
    destruct (eqb x a) eqn:E.
    + left. symmetry. now apply Heq.
    + right. auto.
Qed.

Lemma NoDup_to_set {A : Type} (eqb : A -> A -> bool) l :
  (forall a b, eqb a b = true <-> a = b) ->
  NoDup (JsText.to_set eqb l).
Proof.
  intros Heq. induction l as [|a l IH]; simpl; constructor.
  - rewrite filter_In, negb_true_iff. intros [_ H].
    assert (eqb a a = true) as E by now apply Heq. congruence.
  - now apply NoDup_filter.
Qed.

Lemma In_truthy_strings l x :
  In x (JsText.truthy_strings l) <-> In (Some x) l /\ x <> "".
Proof.
  induction l as [|[s|] l IH]; simpl.
  - tauto.
  - destruct (Js.truthy s) eqn:E; simpl; rewrite IH.
    + apply truthy_iff in E. split.
      * intros [->|[H1 H2]]; auto.
      * intros [[H|H] Hx]; [left; congruence | right; auto].
    + split.
      * intros [H1 H2]. auto.
      * intros [[H|H] Hx]; [|auto].
        injection H as ->. apply truthy_iff in Hx. congruence.
  - rewrite IH. split.
    + intros [H1 H2]. auto.
    + intros [[H|H] Hx]; [discriminate | auto].
Qed.

Lemma In_truthy_numbers l n :
  In n (JsText.truthy_numbers l) <-> In (Some n) l /\ n <> 0.
Proof.
  induction l as [|[m|] l IH]; simpl.
  - tauto.
  - destruct (Z.eqb_spec m 0) as [->|Hm]; simpl; rewrite IH.
    + split.
      * intros [H1 H2]. auto.
      * intros [[H|H] Hx]; [congruence | auto].
    + split.
      * intros [->|[H1 H2]]; auto.
      * intros [[H|H] Hx]; [left; congruence | right; auto].
  - rewrite IH. split.
    + intros [H1 H2]. auto.
    + intros [[H|H] Hx]; [discriminate | auto].
Qed.

Lemma strictly_of_sorted (l : list Z) :
  Sorted (fun a b => (b <=? a)%Z = true) l -> NoDup l ->
  strictly_descending l = true.
Proof.
  induction 1 as [|a l Hl IH Hd]; intros Hn; [reflexivity|].
  destruct l as [|b l]; [reflexivity|].
  change (strictly_descending (a :: b :: l))
    with ((b <? a)%Z && strictly_descending (b :: l)).
  inversion Hn as [|? ? Hnotin Hn']; subst.
  inversion Hd as [|? ? Hab]; subst.
  rewrite IH by assumption. rewrite andb_true_r.
  apply Z.ltb_lt. apply Z.leb_le in Hab.
  assert (a <> b) by (intros ->; apply Hnotin; now left). lia.
Qed.

(** X23. The three selects of the directory offer each distinct value
    once: no industry or location twice and never the empty one, the
    years in strictly decreasing order and never the year 0; and every
    non-empty industry of a fetched profile is on offer. *)
Theorem offered_values_are_distinct (rows : list Directory.AlumniProfile) :
  NoDup (Directory.industries (fetched_directory rows)) /\
  NoDup (Directory.locations (fetched_directory rows)) /\
  strictly_descending (Directory.years (fetched_directory rows)) = true /\
  ~ In "" (Directory.industries (fetched_directory rows)) /\
  ~ In "" (Directory.locations (fetched_directory rows)) /\
  ~ In 0 (Directory.years (fetched_directory rows)) /\
  (forall p i, In p rows -> Directory.industry p = Some i -> i <> "" ->
               In i (Directory.industries (fetched_directory rows))).
Proof.
  unfold fetched_directory, Directory.fetchProfiles.
  cbn [Directory.industries Directory.locations Directory.years].
  repeat split.
  - apply NoDup_to_set, String.eqb_eq.
  - apply NoDup_to_set, String.eqb_eq.
  - apply strictly_of_sorted.
    + apply sort_by_sorted. intros a b. rewrite Z.leb_gt, Z.leb_le. lia.
    + apply (Permutation_NoDup (Permutation_sym (sort_by_perm _ _))).
      apply NoDup_to_set, Z.eqb_eq.
  - rewrite (In_to_set _ _ _ String.eqb_eq), In_truthy_strings. tauto.
  - rewrite (In_to_set _ _ _ String.eqb_eq), In_truthy_strings. tauto.
  - rewrite In_sort_by, (In_to_set _ _ _ Z.eqb_eq), In_truthy_numbers. tauto.
  - intros p i Hp Hi Hne.
    rewrite (In_to_set _ _ _ String.eqb_eq), In_truthy_strings.
    split; [|assumption]. rewrite <- Hi. now apply in_map.
Qed.

Lemma offered_values_witness :
  In "Energy" (Directory.industries
                 (fetched_directory
                    [Scenario2.ayesha; Scenario2.bilal; Scenario2.chand])).
Proof.
  destruct (offered_values_are_distinct
              [Scenario2.ayesha; Scenario2.bilal; Scenario2.chand])
    as (_ & _ & _ & _ & _ & _ & Hall).
  apply (Hall Scenario2.ayesha "Energy").
  - left. reflexivity.
  - reflexivity.
  - discriminate.
Defined.

(** X24. A value offered by a select never empties the list: right after
    a fetch, choosing any offered industry, year or location alone leaves
    at least one profile. *)
Theorem offered_value_matches_a_profile (rows : list Directory.AlumniProfile) :
  (forall i, In i (Directory.industries (fetched_directory rows)) ->
     exists p, In p (Directory.filterProfiles
                       (Directory.setSelectedIndustry i (fetched_directory rows)))) /\
  (forall y, In y (Directory.years (fetched_directory rows)) ->
     exists p, In p (Directory.filterProfiles
                       (Directory.setSelectedYear (JsText.toString y)
                          (fetched_directory rows)))) /\
  (forall l, In l (Directory.locations (fetched_directory rows)) ->
     exists p, In p (Directory.filterProfiles
                       (Directory.setSelectedLocation l (fetched_directory rows)))).
Proof.
  assert (forall (f : Directory.AlumniProfile -> option string) x,
            In (Some x) (map f rows) -> exists p, In p rows /\ f p = Some x)
    as Hmap.
  { intros f x H. apply in_map_iff in H. destruct H as (p & E & Hp).
    exists p. auto. }
  split; [|split].
  - intros i Hi. unfold fetched_directory, Directory.fetchProfiles in Hi.
    cbn [Directory.industries] in Hi.
    rewrite (In_to_set _ _ _ String.eqb_eq), In_truthy_strings in Hi.
    destruct Hi as [Hi Hne]. apply Hmap in Hi. destruct Hi as (p & Hp & E).
    exists p. rewrite filterProfiles_as_filter. apply filter_In.
    split; [exact Hp|]. unfold selected. cbn.
    apply truthy_iff in Hne. rewrite Hne, E. cbn. now rewrite String.eqb_refl.
  - intros y Hy. unfold fetched_directory, Directory.fetchProfiles in Hy.
    cbn [Directory.years] in Hy.
    rewrite In_sort_by, (In_to_set _ _ _ Z.eqb_eq), In_truthy_numbers in Hy.
    destruct Hy as [Hy Hne]. apply in_map_iff in Hy.
    destruct Hy as (p & E & Hp).
    exists p. rewrite filterProfiles_as_filter. apply filter_In.
    split; [exact Hp|]. unfold selected.
    cbn [Directory.setSelectedYear Directory.searchTerm
      Directory.selectedIndustry Directory.selectedYear
      Directory.selectedLocation fetched_directory Directory.fetchProfiles
      Directory.initial Js.truthy andb].
    rewrite E. unfold Directory.year_is. rewrite String.eqb_refl.
    destruct (Js.truthy (JsText.toString y)); reflexivity.
  - intros l Hl. unfold fetched_directory, Directory.fetchProfiles in Hl.
    cbn [Directory.locations] in Hl.
    rewrite (In_to_set _ _ _ String.eqb_eq), In_truthy_strings in Hl.
    destruct Hl as [Hl Hne]. apply Hmap in Hl. destruct Hl as (p & Hp & E).
    exists p. rewrite filterProfiles_as_filter. apply filter_In.
    split; [exact Hp|]. unfold selected. cbn.
    apply truthy_iff in Hne. rewrite Hne, E. cbn. now rewrite String.eqb_refl.
Qed.

Lemma offered_value_witness :
  exists p, In p (Directory.filterProfiles
                    (Directory.setSelectedYear (JsText.toString 2019)
                       (fetched_directory
                          [Scenario2.ayesha; Scenario2.bilal; Scenario2.chand]))).
Proof.
  apply (offered_value_matches_a_profile
           [Scenario2.ayesha; Scenario2.bilal; Scenario2.chand]).
  vm_compute. left. reflexivity.
Defined.

Lemma all_digits_digits_only s :
  all_digits (JsText.digits_only s) = true.
Proof.
  induction s as [|c s IH]; [reflexivity|]. simpl.
  destruct (JsText.is_digit c) eqn:E; [|exact IH]. simpl. now rewrite E.
Qed.

(** X25. Contact buttons respect the privacy switches: a contact whose
    [show_*] switch is off gets no button; the WhatsApp button, when there
    is one, opens [https://wa.me/] followed by the digits of the number and
    nothing else; and at most one button of a card is marked "Primary". *)
Theorem contact_buttons_respect_privacy (p : Directory.AlumniProfile) :
  (Directory.show_email p = false ->
   Directory.ContactButton p Directory.email = None) /\
  (Directory.show_phone p = false ->
   Directory.ContactButton p Directory.phone = None) /\
  (Directory.show_whatsapp p = false ->
   Directory.ContactButton p Directory.whatsapp = None) /\
  (Directory.show_linkedin p = false ->
   Directory.ContactButton p Directory.linkedin = None) /\
  (forall b, Directory.ContactButton p Directory.whatsapp = Some b ->
     exists n, Directory.contact_whatsapp p = Some n /\ n <> "" /\
               Directory.opens b =
                 Some ("https://wa.me/" ++ JsText.digits_only n)%string /\
               all_digits (JsText.digits_only n) = true) /\
  (List.length (filter Directory.primary (Directory.contact_buttons p)) <= 1)%nat.
Proof.
  repeat split.
  - intros H. unfold Directory.ContactButton, Directory.shouldShow. now rewrite H.
  - intros H. unfold Directory.ContactButton, Directory.shouldShow. now rewrite H.
  - intros H. unfold Directory.ContactButton, Directory.shouldShow. now rewrite H.
  - intros H. unfold Directory.ContactButton, Directory.shouldShow. now rewrite H.
  - intros b. unfold Directory.ContactButton, Directory.shouldShow,
      Directory.getContactInfo.
    destruct (Directory.show_whatsapp p); [|discriminate].
    destruct (Directory.contact_whatsapp p) as [n|]; [|discriminate].
    simpl. destruct (Js.truthy n) eqn:E; [|discriminate].
    simpl. intros H. injection H as <-. exists n.
    repeat split.
    + now apply truthy_iff.
    + apply all_digits_digits_only.
  - unfold Directory.contact_buttons, Directory.ContactButton.
    cbn [flat_map Directory.type_name Directory.primary].
    remember (Directory.primary_contact_method p) as m eqn:Hm. clear Hm.
    destruct (Directory.shouldShow p Directory.email),
      (Directory.shouldShow p Directory.linkedin),
      (Directory.shouldShow p Directory.whatsapp),
      (Directory.shouldShow p Directory.phone);
      cbn [negb app filter Directory.primary];
      repeat match goal with
             | |- context [String.eqb m ?lit] =>
                 destruct (String.eqb_spec m lit); [subst m|]
             end;
      simpl; try lia; try discriminate.
Qed.

Lemma contact_buttons_witness :
  Directory.ContactButton Scenario2.ayesha Directory.phone = None /\
  exists n, Directory.contact_whatsapp Scenario2.ayesha = Some n /\ n <> "" /\
            Directory.opens Scenario2.whatsapp_button =
              Some ("https://wa.me/" ++ JsText.digits_only n)%string /\
            all_digits (JsText.digits_only n) = true.
Proof.
  destruct (contact_buttons_respect_privacy Scenario2.ayesha)
    as (_ & Hphone & _ & _ & Hwa & _).
  split.
  - apply Hphone. reflexivity.
  - apply (Hwa Scenario2.whatsapp_button). reflexivity.
Defined.

End DirectoryOptions.

(** ** Votes of several voters *)

Section SeveralVoters.
Import Storage Spec Vocabulary.

Lemma filter_nil_existsb {A : Type} (p : A -> bool) l :
  filter p l = [] -> existsb p l = false.
Proof.
  induction l as [|a l IH]; [reflexivity|]. simpl.
  destruct (p a); [discriminate | exact IH].
Qed.

(** The first vote of a signed-in user on a stored suggestion, when its
    two requests are served, is inserted. *)
Lemma handleVote_first_vote e u s d :
  Client.vote_user e = Some u ->
  Client.select_fault e = None ->
  Client.insert_fault e = None ->
  suggestion_exists s d = true ->
  count_votes s u d = 0%nat ->
  snd (Client.handleVote e s d) = Client.VoteInserted /\
  event_suggestions (fst (Client.handleVote e s d)) = event_suggestions d /\
  event_votes (fst (Client.handleVote e s d)) =
    event_votes d ++
    [{| vt_id := next_uuid d; vt_suggestion_id := s; vt_voter_id := u;
        vt_created_at := Client.vote_now e |}].
Proof.
  intros Hu Hsel Hins Hex H0.
  unfold count_votes, votes_of_pair in H0. apply length_zero_iff_nil in H0.
  unfold Client.handleVote, select_votes, insert_vote, request.
  rewrite Hu, Hsel, Hins, H0, Hex, (filter_nil_existsb _ _ H0). simpl. auto.
Qed.

(** X26. Votes of distinct voters add up: when signed-in users who have
    not yet voted on a stored suggestion, no two of them the same, vote on
    it one after the other and their requests are served, every vote is
    inserted and the vote count of the suggestion grows by their number. *)
Theorem distinct_voters_add_up (s : uuid) (es : list Client.vote_env) (d : db) :
  suggestion_exists s d = true ->
  NoDup (map Client.vote_user es) ->
  (forall e, In e es ->
     exists u, Client.vote_user e = Some u /\ count_votes s u d = 0%nat /\
               Client.select_fault e = None /\ Client.insert_fault e = None) ->
  voteCount s (fst (Client.handleVotes es s d)) =
    (voteCount s d + List.length es)%nat /\
  Forall (fun o => o = Client.VoteInserted) (snd (Client.handleVotes es s d)).
Proof.
  revert d. induction es as [|e es IH]; intros d Hex Hnd Hall.
  - simpl. split; [lia | constructor].
  - simpl in Hnd. inversion Hnd as [|? ? Hnotin Hnd']; subst.
    destruct (Hall e (or_introl eq_refl)) as (u & Hu & H0 & Hsel & Hins).
    destruct (handleVote_first_vote e u s d Hu Hsel Hins Hex H0)
      as (Ho & Es & Ev).
    simpl.
    destruct (Client.handleVote e s d) as [d1 o] eqn:H1.
    cbn [fst snd] in Ho, Es, Ev. subst o.
    assert (voteCount s d1 = Datatypes.S (voteCount s d)) as Hc1.
    { unfold voteCount, votes_with. rewrite Ev, filter_snoc_length. simpl.
      rewrite N.eqb_refl. lia. }
    destruct (IH d1) as (Hc & Hos).
    + now rewrite (suggestion_exists_same d d1 s Es).
    + exact Hnd'.
    + intros e' He'.
      destruct (Hall e' (or_intror He')) as (u' & Hu' & H0' & Hsel' & Hins').
      exists u'. repeat split; try assumption.
      unfold count_votes, votes_of_pair. rewrite Ev, filter_snoc_length.
      unfold count_votes, votes_of_pair in H0'. rewrite H0'.
      unfold votes_eq. simpl.
      destruct (N.eqb_spec u u') as [->|Hne]; [|now rewrite andb_false_r].
      exfalso. apply Hnotin. rewrite Hu, <- Hu'. now apply in_map.
    + destruct (Client.handleVotes es s d1) as [d2 os]. cbn [fst snd] in *.
      split; [lia|]. now constructor.
Qed.

Lemma distinct_voters_witness :
  voteCount 0
    (fst (Client.handleVotes
            [Scenario.voter 101 31; Scenario.voter 102 32; Scenario.voter 103 33]
            0 Scenario.suggested)) =
    Nat.add (voteCount 0 Scenario.suggested)
      (List.length
         [Scenario.voter 101 31; Scenario.voter 102 32; Scenario.voter 103 33]) /\
  Forall (fun o => o = Client.VoteInserted)
    (snd (Client.handleVotes
            [Scenario.voter 101 31; Scenario.voter 102 32; Scenario.voter 103 33]
            0 Scenario.suggested)).
Proof.
  apply (distinct_voters_add_up 0
           [Scenario.voter 101 31; Scenario.voter 102 32; Scenario.voter 103 33]
           Scenario.suggested).
  - reflexivity.
  - repeat constructor; simpl; intuition discriminate.
  - intros e [<-|[<-|[<-|[]]]]; eexists; repeat split; reflexivity.
Defined.

End SeveralVoters.
